(** * Configuration resolution of the Vault operator

    A shallow embedding of [pkg/apis/vault/v1alpha1/vault_types.go]: the
    methods of [VaultSpec], [UnsealConfig] and [Vault] that derive facts
    from the user's resource (storage type, HA verdict, version, TLS
    threshold), synthesize the unseal arguments handed to bank-vaults,
    merge the service-registration stanza and default the ingress.

    Go strings are byte strings ([string]); Go maps are [gmap]; a nil
    pointer is [None]; [uint] is [N]; the order in which Go walks a map is
    left open by the [MapIter] class.  Third-party packages are either
    parameters ([Cast], [VersionParsers], [DurationParser]) or, for mergo,
    a model of the part of the package that [ConfigJSON] runs. *)

From Stdlib Require Import ZArith NArith QArith String Ascii List DecimalString.
From stdpp Require Import base gmap strings list sorting.

Set Warnings "-register-all".


(** ** The Go runtime and standard library pieces the code calls *)

Module Go.

(** [fmt.Sprint] of an unsigned integer: its decimal numeral. *)
Definition Sprint (n : N) : string := NilEmpty.string_of_uint (N.to_uint n).

(** [strings.Join(elems, sep)]. *)
Fixpoint Join (elems : list string) (sep : string) : string :=
  match elems with
  | [] => ""
  | [e] => e
  | e :: rest => e +:+ sep +:+ Join rest sep
  end.

(** [sort.Strings]: ascending byte-wise order.  Equal strings cannot be
    told apart, so every correct sort returns the same slice; merge sort
    stands for Go's pattern-defeating quicksort. *)
Definition Strings (a : list string) : list string := merge_sort String.le a.

(** Go leaves the order of [for k, v := range m] and of
    [reflect.Value.MapKeys] unspecified and randomizes it per walk.  A
    [MapIter] is one possible behaviour of the runtime: for the [tick]-th
    walk of the run it lists the entries of the map in some order. *)
Class MapIter := {
  range : ∀ {A : Type}, nat → gmap string A → list (string * A);
  range_perm : ∀ (A : Type) (tick : nat) (m : gmap string A),
    range tick m ≡ₚ map_to_list m
}.

(** [reflect.ValueOf(m).MapKeys()]. *)
Definition MapKeys `{MapIter} {A : Type} (tick : nat) (m : gmap string A)
  : list string := (range tick m).*1.

(** The runtime that always walks a map in the order of [map_to_list]. *)
Definition ordered_iter : MapIter :=
  {| range A _ m := map_to_list m;
     range_perm A _ m := Permutation_refl (map_to_list m) |}.

(** A runtime whose odd-numbered walks go backwards. *)
Definition zigzag_iter : MapIter :=
  {| range A tick m :=
       if Nat.even tick then map_to_list m else reverse (map_to_list m);
     range_perm A tick m :=
       match Nat.even tick as even
         return (if even then map_to_list m else reverse (map_to_list m))
                ≡ₚ map_to_list m
       with
       | true => Permutation_refl (map_to_list m)
       | false => reverse_Permutation (map_to_list m)
       end |}.

End Go.
Import Go.

(** ** Unseal configuration (lines 660-964 of the source) *)

(** [UnsealOptions]: the options common to all unsealing backends. *)
Record UnsealOptions := {
  PreFlightChecks : option bool;
  StoreRootToken : option bool;
  SecretThreshold : option N;
  SecretShares : option N
}.

Record KubernetesUnsealConfig := {
  SecretNamespace : string;
  SecretName : string
}.

Module GoogleUnsealConfig.
Record t := {
  KMSKeyRing : string;
  KMSCryptoKey : string;
  KMSLocation : string;
  KMSProject : string;
  StorageBucket : string
}.
End GoogleUnsealConfig.

Module AlibabaUnsealConfig.
Record t := {
  KMSRegion : string;
  KMSKeyID : string;
  OSSEndpoint : string;
  OSSBucket : string;
  OSSPrefix : string
}.
End AlibabaUnsealConfig.

Module AzureUnsealConfig.
Record t := { KeyVaultName : string }.
End AzureUnsealConfig.

Module AWSUnsealConfig.
Record t := {
  KMSKeyID : string;
  KMSRegion : string;
  KMSEncryptionContext : string;
  S3Bucket : string;
  S3Prefix : string;
  S3Region : string;
  S3SSE : string
}.
End AWSUnsealConfig.

Module OCIUnsealConfig.
Record t := {
  KeyOCID : string;
  CryptographicEndpoint : string;
  BucketName : string;
  BucketNamespace : string;
  BucketPrefix : string
}.
End OCIUnsealConfig.

Module VaultUnsealConfig.
Record t := {
  Address : string;
  UnsealKeysPath : string;
  Role : string;
  AuthPath : string;
  TokenPath : string;
  Token : string
}.
End VaultUnsealConfig.

Module HSMUnsealConfig.
Record t := {
  Daemon : bool;
  ModulePath : string;
  SlotID : N;
  TokenLabel : string;
  Pin : string;
  KeyLabel : string
}.
End HSMUnsealConfig.

(** [UnsealConfig]: the backends are pointers, [None] is the nil pointer. *)
Module UnsealConfig.
Record t := {
  Options : UnsealOptions;
  Kubernetes : KubernetesUnsealConfig;
  Google : option GoogleUnsealConfig.t;
  Alibaba : option AlibabaUnsealConfig.t;
  Azure : option AzureUnsealConfig.t;
  AWS : option AWSUnsealConfig.t;
  OCI : option OCIUnsealConfig.t;
  Vault : option VaultUnsealConfig.t;
  HSM : option HSMUnsealConfig.t
}.
End UnsealConfig.

(** ** Configuration documents *)

(** A decoded JSON value as [encoding/json] stores it in an [interface{}]:
    [nil], [bool], [float64] (kept as the exact rational it denotes),
    [string], [[]interface{}] and [map[string]interface{}]. *)
Inductive JSON :=
  | JNull
  | JBool (b : bool)
  | JNumber (q : Q)
  | JString (s : string)
  | JArray (l : list JSON)
  | JObject (m : gmap string JSON).

(** [extv1beta1.JSON]: the raw bytes of a document, kept as what
    [encoding/json] makes of them.
    - [RawInvalid]: the bytes are not well-formed JSON (no bytes at all
      among them); the decoder checks this first and then stores nothing.
    - [RawValue v]: well-formed, every number within the range of
      [float64]; the bytes decode to [v].
    - [RawOutOfRange v]: well-formed, with a number outside the range of
      [float64].  The decoder records the first such number as an
      [UnmarshalTypeError], goes on to the end, and has then decoded [v],
      with nil in the place of each such number. *)
Inductive RawJSON :=
  | RawInvalid
  | RawValue (v : JSON)
  | RawOutOfRange (v : JSON).

(** ** Kubernetes ingress types ([k8s.io/api/networking/v1]) *)

Module netv1.
Record ServiceBackendPort := { PortName : string; Number : Z }.
Record IngressServiceBackend := { Name : string; Port : ServiceBackendPort }.
Record IngressBackend := { Service : option IngressServiceBackend }.
Record IngressRule := { Host : string }.
Record IngressSpec := {
  IngressClassName : option string;
  DefaultBackend : option IngressBackend;
  Rules : list IngressRule
}.
End netv1.

(** [Ingress]: a nil [Annotations] map is [None]. *)
Module Ingress.
Record t := {
  Annotations : option (gmap string string);
  Spec : netv1.IngressSpec
}.
End Ingress.

(** ** The resource *)

(** [VaultSpec], restricted to the fields read by the methods below. *)
Module VaultSpec.
Record t := {
  Image : string;
  Config : RawJSON;
  UnsealConfig : UnsealConfig.t;
  ServiceRegistrationEnabled : bool;
  Ingress : option Ingress.t;
  TLSExpiryThreshold : string
}.
End VaultSpec.

(** [Vault]: [Name] and [Namespace] come from the embedded [ObjectMeta]. *)
Record Vault := {
  Name : string;
  Namespace : string;
  Spec : VaultSpec.t
}.

(** [LabelsForVault] (line 1074). *)
Definition LabelsForVault (vault : Vault) : gmap string string :=
  {[ "app.kubernetes.io/name" := "vault"; "vault_cr" := Name vault ]}.

(** ** [UnsealConfig.ToArgs] (lines 682-887) *)

(** The loop [for k, v := range labels] that appends [k+"="+v], followed
    by [sort.Strings] and [strings.Join(secretLabels, ",")]; both branches
    that emit [--k8s-secret-labels] run it on [vault.LabelsForVault()]. *)
Definition secretLabels `{MapIter} (tick : nat) (labels : gmap string string)
  : string :=
  let secretLabels :=
    foldl (λ acc kv, acc ++ [kv.1 +:+ "=" +:+ kv.2]) [] (range tick labels) in
  Join (Strings secretLabels) ",".

Definition ToArgs `{MapIter} (tick : nat) (usc : UnsealConfig.t) (vault : Vault)
  : list string :=
  let opts := UnsealConfig.Options usc in
  let k8s := UnsealConfig.Kubernetes usc in
  let args : list string := [] in
  (* PreFlightChecks is true by default *)
  let args :=
    match PreFlightChecks opts with
    | Some false => args ++ ["--pre-flight-checks=false"]
    | _ => args
    end in
  (* StoreRootToken is true by default *)
  let args :=
    match StoreRootToken opts with
    | Some false => args ++ ["--store-root-token=false"]
    | _ => args
    end in
  (* SecretShares is 5 by default *)
  let args :=
    match SecretShares opts with
    | Some n => if (0 <? n)%N then args ++ ["--secret-shares"; Sprint n] else args
    | None => args
    end in
  (* SecretThreshold is 3 by default *)
  let args :=
    match SecretThreshold opts with
    | Some n => if (0 <? n)%N then args ++ ["--secret-threshold"; Sprint n] else args
    | None => args
    end in
  match UnsealConfig.Google usc with
  | Some google =>
      args ++ ["--mode"; "google-cloud-kms-gcs";
               "--google-cloud-kms-key-ring"; GoogleUnsealConfig.KMSKeyRing google;
               "--google-cloud-kms-crypto-key"; GoogleUnsealConfig.KMSCryptoKey google;
               "--google-cloud-kms-location"; GoogleUnsealConfig.KMSLocation google;
               "--google-cloud-kms-project"; GoogleUnsealConfig.KMSProject google;
               "--google-cloud-storage-bucket"; GoogleUnsealConfig.StorageBucket google]
  | None =>
  match UnsealConfig.Azure usc with
  | Some azure =>
      args ++ ["--mode"; "azure-key-vault";
               "--azure-key-vault-name"; AzureUnsealConfig.KeyVaultName azure]
  | None =>
  match UnsealConfig.OCI usc with
  | Some oci =>
      args ++ ["--mode"; "oci";
               "--oci-key-ocid"; OCIUnsealConfig.KeyOCID oci;
               "--oci-cryptographic-endpoint"; OCIUnsealConfig.CryptographicEndpoint oci;
               "--oci-bucket-namespace"; OCIUnsealConfig.BucketNamespace oci;
               "--oci-bucket-name"; OCIUnsealConfig.BucketName oci;
               "--oci-bucket-prefix"; OCIUnsealConfig.BucketPrefix oci]
  | None =>
  match UnsealConfig.AWS usc with
  | Some aws =>
      let args :=
        args ++ ["--mode"; "aws-kms-s3";
                 "--aws-kms-key-id"; AWSUnsealConfig.KMSKeyID aws;
                 "--aws-kms-region"; AWSUnsealConfig.KMSRegion aws;
                 "--aws-s3-bucket"; AWSUnsealConfig.S3Bucket aws;
                 "--aws-s3-prefix"; AWSUnsealConfig.S3Prefix aws;
                 "--aws-s3-region"; AWSUnsealConfig.S3Region aws;
                 "--aws-s3-sse-algo"; AWSUnsealConfig.S3SSE aws] in
      if decide (AWSUnsealConfig.KMSEncryptionContext aws ≠ "")
      then args ++ ["--aws-kms-encryption-context";
                    AWSUnsealConfig.KMSEncryptionContext aws]
      else args
  | None =>
  match UnsealConfig.Alibaba usc with
  | Some alibaba =>
      args ++ ["--mode"; "alibaba-kms-oss";
               "--alibaba-kms-region"; AlibabaUnsealConfig.KMSRegion alibaba;
               "--alibaba-kms-key-id"; AlibabaUnsealConfig.KMSKeyID alibaba;
               "--alibaba-oss-endpoint"; AlibabaUnsealConfig.OSSEndpoint alibaba;
               "--alibaba-oss-bucket"; AlibabaUnsealConfig.OSSBucket alibaba;
               "--alibaba-oss-prefix"; AlibabaUnsealConfig.OSSPrefix alibaba]
  | None =>
  match UnsealConfig.Vault usc with
  | Some v =>
      let args :=
        args ++ ["--mode"; "vault";
                 "--vault-addr"; VaultUnsealConfig.Address v;
                 "--vault-unseal-keys-path"; VaultUnsealConfig.UnsealKeysPath v] in
      if decide (VaultUnsealConfig.Token v ≠ "")
      then args ++ ["--vault-token"; VaultUnsealConfig.Token v]
      else if decide (VaultUnsealConfig.TokenPath v ≠ "")
      then args ++ ["--vault-token-path"; VaultUnsealConfig.TokenPath v]
      else if decide (VaultUnsealConfig.Role v ≠ "")
      then args ++ ["--vault-role"; VaultUnsealConfig.Role v;
                    "--vault-auth-path"; VaultUnsealConfig.AuthPath v]
      else args
  | None =>
  match UnsealConfig.HSM usc with
  | Some hsm =>
      let mode :=
        if decide (SecretNamespace k8s ≠ "" ∧ SecretName k8s ≠ "")
        then "hsm-k8s" else "hsm" in
      let args :=
        args ++ ["--mode"; mode;
                 "--hsm-module-path"; HSMUnsealConfig.ModulePath hsm;
                 "--hsm-slot-id"; Sprint (HSMUnsealConfig.SlotID hsm);
                 "--hsm-key-label"; HSMUnsealConfig.KeyLabel hsm] in
      let args :=
        if decide (HSMUnsealConfig.Pin hsm ≠ "")
        then args ++ ["--hsm-pin"; HSMUnsealConfig.Pin hsm] else args in
      let args :=
        if decide (HSMUnsealConfig.TokenLabel hsm ≠ "")
        then args ++ ["--hsm-token-label"; HSMUnsealConfig.TokenLabel hsm]
        else args in
      if decide (mode = "hsm-k8s")
      then args ++ ["--k8s-secret-namespace"; SecretNamespace k8s;
                    "--k8s-secret-name"; SecretName k8s;
                    "--k8s-secret-labels";
                    secretLabels tick (LabelsForVault vault)]
      else args
  | None =>
      let secretNamespace :=
        if decide (SecretNamespace k8s ≠ "")
        then SecretNamespace k8s else Namespace vault in
      let secretName :=
        if decide (SecretName k8s ≠ "")
        then SecretName k8s else Name vault +:+ "-unseal-keys" in
      args ++ ["--mode"; "k8s";
               "--k8s-secret-namespace"; secretNamespace;
               "--k8s-secret-name"; secretName;
               "--k8s-secret-labels";
                    secretLabels tick (LabelsForVault vault)]
  end end end end end end end.

(** ** External packages *)

(** A Go [error], kept as its message. *)
Definition error := string.

(** [github.com/spf13/cast] and the decoder it calls.  [ToBool] is
    [cast.ToBool] on a decoded value; [jsonStringToObject s] is the map
    that cast's helper of that name leaves behind after
    [json.Unmarshal([]byte(s), &m)] on a fresh map (empty when [s] does not
    hold an object).  The derived facts are proved for every such pair. *)
Class Cast := {
  ToBool : JSON → bool;
  jsonStringToObject : string → gmap string JSON
}.

(** [strconv.ParseBool]; [None] is its error. *)
Definition ParseBool (str : string) : option bool :=
  if bool_decide (str ∈ ["1"; "t"; "T"; "TRUE"; "true"; "True"]) then Some true
  else if bool_decide (str ∈ ["0"; "f"; "F"; "FALSE"; "false"; "False"]) then Some false
  else None.

(** The conversions of cast 1.5 on documents none of whose stanzas is a
    JSON-encoded string: [ToBool] takes booleans as they are, nil as false,
    numbers as non-zero and strings through [ParseBool], and drops the
    error of anything else. *)
Definition cast_plain : Cast := {|
  ToBool i :=
    match i with
    | JBool b => b
    | JNumber q => negb (Qnum q =? 0)%Z
    | JString s => default false (ParseBool s)
    | _ => false
    end;
  jsonStringToObject _ := ∅
|}.

(** [cast.ToStringMap], errors dropped. *)
Definition ToStringMap `{Cast} (i : JSON) : gmap string JSON :=
  match i with
  | JObject m => m
  | JString s => jsonStringToObject s
  | _ => ∅
  end.

(** Indexing a [map[string]interface{}]: a missing key reads as nil. *)
Definition index (m : gmap string JSON) (key : string) : JSON :=
  default JNull (m !! key).

(** ** Derived facts of [VaultSpec] (lines 328-467) *)

(** [HAStorageTypes] (line 45). *)
Definition HAStorageTypes : gmap string bool :=
  list_to_map
    [("consul", true); ("dynamodb", true); ("etcd", true); ("gcs", true);
     ("mysql", true); ("postgresql", true); ("raft", true); ("oci", true);
     ("spanner", true); ("zookeeper", true)].

(** [json.Unmarshal(raw, &config)] for a [map[string]interface{}]
    ([None] is the nil map): the map afterwards, and the error.  An object
    stores its entries into the map, which is allocated when nil and keeps
    the entries it has under other keys; [null] sets the map to nil; any
    other value is a type error and leaves the map as it is.  A number
    outside [float64] is an error too, but the entries are stored, nil in
    its place. *)
Definition Unmarshal (raw : RawJSON) (config : option (gmap string JSON))
  : option (gmap string JSON) * option error :=
  match raw with
  | RawInvalid => (config, Some "invalid character looking for beginning of value")
  | RawValue JNull => (None, None)
  | RawValue (JObject m) => (Some (m ∪ default ∅ config), None)
  | RawValue _ =>
      (config,
       Some "json: cannot unmarshal into Go value of type map[string]interface {}")
  | RawOutOfRange (JObject m) =>
      (Some (m ∪ default ∅ config),
       Some "json: cannot unmarshal number into Go value of type float64")
  | RawOutOfRange _ =>
      (config,
       Some "json: cannot unmarshal into Go value of type map[string]interface {}")
  end.

(** [GetVaultConfig] (line 369): the decoder fills a nil map and its error
    is dropped; what it has stored by then is returned.  Reading the nil
    map is reading the empty one. *)
Definition GetVaultConfig (spec : VaultSpec.t) : gmap string JSON :=
  let config : option (gmap string JSON) := None in
  let config := (Unmarshal (VaultSpec.Config spec) config).1 in
  default ∅ config.

Definition getStorage `{Cast} (spec : VaultSpec.t) : gmap string JSON :=
  ToStringMap (index (GetVaultConfig spec) "storage").

Definition getHAStorage `{Cast} (spec : VaultSpec.t) : gmap string JSON :=
  ToStringMap (index (GetVaultConfig spec) "ha_storage").

Definition getListener `{Cast} (spec : VaultSpec.t) : gmap string JSON :=
  ToStringMap (index (GetVaultConfig spec) "listener").

Definition hasHAStorageStanza `{Cast} (spec : VaultSpec.t) : bool :=
  negb (size (getHAStorage spec) =? 0).

(** [GetStorageType]: the first key of the [tick]-th map walk. *)
Definition GetStorageType `{MapIter, Cast} (tick : nat) (spec : VaultSpec.t)
  : string :=
  let storage := getStorage spec in
  match MapKeys tick storage with
  | [] => ""
  | key :: _ => key
  end.

(** [HasStorageHAEnabled] (line 420). *)
Definition HasStorageHAEnabled `{MapIter, Cast} (tick : nat) (spec : VaultSpec.t)
  : bool :=
  let storageType := GetStorageType tick spec in
  let storage := getStorage spec in
  let storageSpecs := ToStringMap (index storage storageType) in
  bool_decide (storageType = "consul")
  || bool_decide (storageType = "raft")
  || ToBool (index storageSpecs "ha_enabled").

(** [HasHAStorage] (line 330).  It reads the storage type once itself and
    once more inside [HasStorageHAEnabled]; these are two map walks.
    [found] is the early [return true] of the first [if]. *)
Definition HasHAStorage `{MapIter, Cast} (tick : nat) (spec : VaultSpec.t)
  : bool :=
  let storageType := GetStorageType tick spec in
  let found :=
    if bool_decide (is_Some (HAStorageTypes !! storageType))
    then if HasStorageHAEnabled (S tick) spec then true else false
    else false in
  if found then true
  else if hasHAStorageStanza spec then true
  else false.

(** [IsTLSDisabled] (line 429). *)
Definition IsTLSDisabled `{Cast} (spec : VaultSpec.t) : bool :=
  let listener := getListener spec in
  let tcp := ToStringMap (index listener "tcp") in
  ToBool (index tcp "tls_disable").

(** ** [github.com/imdario/mergo]

    [mergo.Merge] without options, as far as [ConfigJSON] uses it: the
    destination is a decoded document and the source a literal of nested
    maps with string leaves.  The definitions follow [deepMerge] and
    [isEmptyValue] of the package: without [WithOverride] a key of the
    destination is written only if it is missing or holds an empty
    value. *)

(** The source side of the merge in [ConfigJSON]: nested map literals with
    string leaves. *)
Inductive Src :=
  | SrcString (s : string)
  | SrcMap (entries : list (string * Src)).

(** The value that [SetMapIndex(key, srcElement)] stores. *)
Fixpoint toJSON (src : Src) : JSON :=
  match src with
  | SrcString s => JString s
  | SrcMap entries =>
      JObject ((fix go (es : list (string * Src)) : gmap string JSON :=
                  match es with
                  | [] => ∅
                  | (k, e) :: rest => <[k := toJSON e]> (go rest)
                  end) entries)
  end.

(** mergo's [isEmptyValue] on the content of an [interface{}]: nil, false,
    zero, and strings, slices and maps of length zero. *)
Definition isEmptyValue (v : JSON) : bool :=
  match v with
  | JNull => true
  | JBool b => negb b
  | JNumber q => (Qnum q =? 0)%Z
  | JString s => String.length s =? 0
  | JArray l => length l =? 0
  | JObject m => size m =? 0
  end.

(** One round of the loop over [src.MapKeys()] in mergo's [deepMerge]
    (map case, no [WithOverride]): the value under [key] afterwards, given
    [dstElement = dst.MapIndex(key)].  A map found on both sides is merged
    in place; otherwise the source value is stored when the key is missing
    or holds an empty value, and the destination is kept when it is not
    empty. *)
Fixpoint deepMergeElem (dstElement : option JSON) (srcElement : Src) : JSON :=
  match srcElement with
  | SrcString s =>
      match dstElement with
      | Some d => if isEmptyValue d then JString s else d
      | None => JString s
      end
  | SrcMap entries =>
      match dstElement with
      | Some (JObject dm) =>
          let dm' :=
            (fix loop (es : list (string * Src)) (dm : gmap string JSON) :=
               match es with
               | [] => dm
               | (k, e) :: rest =>
                   loop rest (<[k := deepMergeElem (dm !! k) e]> dm)
               end) entries dm in
          if isEmptyValue (JObject dm') then toJSON srcElement else JObject dm'
      | Some d => if isEmptyValue d then toJSON srcElement else d
      | None => toJSON srcElement
      end
  end.

(** [deepMerge] on two maps.  The rounds for different keys write
    different entries, so the order of the walk over the source keys does
    not matter; the literal order stands for it. *)
Definition deepMerge (dst : gmap string JSON) (src : list (string * Src))
  : gmap string JSON :=
  foldl (λ dm kv, <[kv.1 := deepMergeElem (dm !! kv.1) kv.2]> dm) dst src.

(** [mergo.Merge(&dst, src)] for a [map[string]interface{}] destination
    ([None] is the nil map, which is allocated first).  None of its error
    cases (nil or non-pointer arguments, different types) can arise here. *)
Definition Merge (dst : option (gmap string JSON)) (src : list (string * Src))
  : error + option (gmap string JSON) :=
  inr (Some (deepMerge (default ∅ dst) src)).

(** ** [Vault.ConfigJSON] (line 1002) *)

(** The literal [serviceRegistration] built in [ConfigJSON]. *)
Definition serviceRegistration (vault : Vault) : list (string * Src) :=
  [("service_registration",
    SrcMap [("kubernetes", SrcMap [("namespace", SrcString (Namespace vault))])])].

(** [json.Marshal(config)], kept as the document it encodes; it cannot
    fail on a decoded document. *)
Definition Marshal (config : option (gmap string JSON)) : JSON :=
  match config with
  | None => JNull
  | Some m => JObject m
  end.

(** The decoder is given an empty map, not a nil one. *)
Definition ConfigJSON `{MapIter, Cast} (tick : nat) (vault : Vault)
  : error + JSON :=
  let config : option (gmap string JSON) := Some ∅ in
  match Unmarshal (VaultSpec.Config (Spec vault)) config with
  | (_, Some err) => inl err
  | (config, None) =>
      if VaultSpec.ServiceRegistrationEnabled (Spec vault)
         && HasHAStorage tick (Spec vault)
      then
        match Merge config (serviceRegistration vault) with
        | inl err => inl err
        | inr config => inr (Marshal config)
        end
      else inr (Marshal config)
  end.

(** ** [Vault.GetIngress] (line 1033) *)

(** The method writes through the [vault.Spec.Ingress] pointer; it returns
    the ingress together with the resource as it is afterwards. *)
Definition GetIngress `{Cast} (vault : Vault) : option Ingress.t * Vault :=
  match VaultSpec.Ingress (Spec vault) with
  | Some ingress =>
      let spec := Ingress.Spec ingress in
      (* Add the Vault Service as the backend if no rules are specified
         and there is no default backend *)
      let spec :=
        if (length (netv1.Rules spec) =? 0)
           && bool_decide (netv1.DefaultBackend spec = None)
        then {| netv1.IngressClassName := netv1.IngressClassName spec;
                netv1.DefaultBackend :=
                  Some {| netv1.Service :=
                    Some {| netv1.Name := Name vault;
                            netv1.Port := {| netv1.PortName := "";
                                             netv1.Number := 8200 |} |} |};
                netv1.Rules := netv1.Rules spec |}
        else spec in
      let annotations :=
        match Ingress.Annotations ingress with
        | None => ∅
        | Some a => a
        end in
      (* If TLS is enabled add the Ingress TLS backend annotations *)
      let annotations :=
        if negb (IsTLSDisabled (Spec vault))
        then <["ingress.kubernetes.io/secure-backends" := "true"]>
               (<["ingress.kubernetes.io/protocol" := "https"]>
                  (<["nginx.ingress.kubernetes.io/backend-protocol" := "HTTPS"]>
                     annotations))
        else annotations in
      let ingress :=
        {| Ingress.Annotations := Some annotations; Ingress.Spec := spec |} in
      (Some ingress,
       {| Name := Name vault; Namespace := Namespace vault;
          Spec := {| VaultSpec.Image := VaultSpec.Image (Spec vault);
                     VaultSpec.Config := VaultSpec.Config (Spec vault);
                     VaultSpec.UnsealConfig := VaultSpec.UnsealConfig (Spec vault);
                     VaultSpec.ServiceRegistrationEnabled :=
                       VaultSpec.ServiceRegistrationEnabled (Spec vault);
                     VaultSpec.Ingress := Some ingress;
                     VaultSpec.TLSExpiryThreshold :=
                       VaultSpec.TLSExpiryThreshold (Spec vault) |} |})
  | None => (None, vault)
  end.

(** ** [VaultSpec.GetVersion] (line 397) *)

(** The reference kinds of [github.com/sagikazarmark/docker-ref/reference]
    and the [Tagged] interface: only [taggedReference] and the full
    [reference] have a [Tag] method. *)
Module reference.
Inductive Reference :=
  | digestReference (digest : string)
  | repository (name : string)
  | taggedReference (name tag : string)
  | canonicalReference (name digest : string)
  | reference (name tag digest : string).

(** The type assertion [ref.(reference.Tagged)] followed by [Tag()]. *)
Definition Tagged (ref : Reference) : option string :=
  match ref with
  | taggedReference _ tag | reference _ tag _ => Some tag
  | _ => None
  end.
End reference.

(** [semver.Version] of [github.com/Masterminds/semver/v3]. *)
Module semver.
Record Version := {
  major : N;
  minor : N;
  patch : N;
  pre : string;
  metadata : string;
  original : string
}.
End semver.

(** The two parsers [GetVersion] calls; their grammars are the packages'
    own and are left open. *)
Class VersionParsers := {
  ParseAnyReference : string → error + reference.Reference;
  NewVersion : string → error + semver.Version
}.

(** The errors of [GetVersion]. *)
Inductive VersionError :=
  | InvalidReference (err : error)   (* "parsing image ref for Vault version: %w" *)
  | MissingTag                       (* "Vault image ref does not have a tag" *)
  | InvalidVersion (err : error).    (* the error of [semver.NewVersion] *)

Definition GetVersion `{VersionParsers} (spec : VaultSpec.t)
  : VersionError + semver.Version :=
  match ParseAnyReference (VaultSpec.Image spec) with
  | inl err => inl (InvalidReference err)
  | inr ref =>
      match reference.Tagged ref with
      | None => inl MissingTag
      | Some tag =>
          match NewVersion tag with
          | inl err => inl (InvalidVersion err)
          | inr version => inr version
          end
      end
  end.

(** ** [VaultSpec.GetTLSExpiryThreshold] (line 452) *)

(** [time.Duration]: nanoseconds. *)
Definition Duration := Z.
Definition Hour : Duration := (3600 * 1000000000)%Z.

(** [time.ParseDuration]; its grammar is the standard library's and is
    left open. *)
Class DurationParser := ParseDuration : string → error + Duration.

(** One call of [log.Error(err, msg, keysAndValues...)]. *)
Record LogEntry := {
  log_err : error;
  log_msg : string;
  log_keysAndValues : list string
}.

(** The method returns a duration and may write to the package logger: the
    result is the duration with the entries logged. *)
Definition GetTLSExpiryThreshold `{DurationParser} (spec : VaultSpec.t)
  : Duration * list LogEntry :=
  if bool_decide (VaultSpec.TLSExpiryThreshold spec = "")
  then ((Hour * 168)%Z, [])
  else
    match ParseDuration (VaultSpec.TLSExpiryThreshold spec) with
    | inl err =>
        ((Hour * 168)%Z,
         [{| log_err := err;
             log_msg := "using default threshold due to parse error";
             log_keysAndValues :=
               ["tlsExpiryThreshold"; VaultSpec.TLSExpiryThreshold spec] |}])
    | inr duration => (duration, [])
    end.

(** ** The other accessors of [VaultSpec], [UnsealConfig] and [Vault] *)

(** [GetHAStorageType] (line 388).  A non-empty map has a first key; the
    empty list of keys cannot arise after the length check. *)
Definition GetHAStorageType `{MapIter, Cast} (tick : nat) (spec : VaultSpec.t)
  : string :=
  let haStorage := getHAStorage spec in
  if size haStorage =? 0 then ""
  else match MapKeys tick haStorage with
       | [] => ""
       | key :: _ => key
       end.

(** [GetStorage] (line 348): the parameters of the storage backend. *)
Definition GetStorage `{MapIter, Cast} (tick : nat) (spec : VaultSpec.t)
  : gmap string JSON :=
  let storage := getStorage spec in
  ToStringMap (index storage (GetStorageType tick spec)).

(** [GetHAStorage] (line 359). *)
Definition GetHAStorage `{MapIter, Cast} (tick : nat) (spec : VaultSpec.t)
  : gmap string JSON :=
  let haStorage := getHAStorage spec in
  ToStringMap (index haStorage (GetHAStorageType tick spec)).

(** [IsTelemetryUnauthenticated] (line 436). *)
Definition IsTelemetryUnauthenticated `{Cast} (spec : VaultSpec.t) : bool :=
  let listener := getListener spec in
  let tcp := ToStringMap (index listener "tcp") in
  let telemetry := ToStringMap (index tcp "telemetry") in
  ToBool (index telemetry "unauthenticated_metrics_access").

(** [GetAPIScheme] (line 444). *)
Definition GetAPIScheme `{Cast} (spec : VaultSpec.t) : string :=
  if IsTLSDisabled spec then "http" else "https".

(** [GetVaultImage] (line 470). *)
Definition GetVaultImage (spec : VaultSpec.t) : string :=
  if bool_decide (VaultSpec.Image spec = "") then "hashicorp/vault:latest"
  else VaultSpec.Image spec.

(** [IsAutoUnseal] (line 631): the comma-ok lookup of [seal]. *)
Definition IsAutoUnseal (spec : VaultSpec.t) : bool :=
  bool_decide (is_Some (GetVaultConfig spec !! "seal")).

(** [IsRaftStorage] (line 638). *)
Definition IsRaftStorage `{MapIter, Cast} (tick : nat) (spec : VaultSpec.t)
  : bool :=
  bool_decide (GetStorageType tick spec = "raft").

(** [IsRaftHAStorage] (line 643): two map walks, the second only when the
    first does not return [raft]. *)
Definition IsRaftHAStorage `{MapIter, Cast} (tick : nat) (spec : VaultSpec.t)
  : bool :=
  negb (bool_decide (GetStorageType tick spec = "raft"))
  && bool_decide (GetHAStorageType (S tick) spec = "raft").

(** The scalar fields of [VaultSpec] that the accessors below read and
    [VaultSpec.t] does not hold; the Go struct is the records side by
    side. *)
Module VaultSpecRest.
Record t := {
  BankVaultsImage : string;
  StatsDImage : string;
  FluentDImage : string;
  FluentDConfLocation : string;
  ConfigPath : string;
  ServiceAccount : string;
  RaftLeaderAddress : string;
  IstioEnabled : bool;
  VeleroFsfreezeImage : string
}.
End VaultSpecRest.

(** [GetServiceAccount] (line 412). *)
Definition GetServiceAccount (spec : VaultSpecRest.t) : string :=
  if bool_decide (VaultSpecRest.ServiceAccount spec ≠ "")
  then VaultSpecRest.ServiceAccount spec else "default".

(** [GetBankVaultsImage] (line 478).  [DefaultBankVaultsImage] is a
    package variable (initially [ghcr.io/bank-vaults/bank-vaults:latest])
    that other packages may assign; it is an argument here. *)
Definition GetBankVaultsImage (DefaultBankVaultsImage : string)
    (spec : VaultSpecRest.t) : string :=
  if bool_decide (VaultSpecRest.BankVaultsImage spec = "")
  then DefaultBankVaultsImage else VaultSpecRest.BankVaultsImage spec.

(** [GetStatsDImage] (line 486). *)
Definition GetStatsDImage (spec : VaultSpecRest.t) : string :=
  if bool_decide (VaultSpecRest.StatsDImage spec = "")
  then "prom/statsd-exporter:latest" else VaultSpecRest.StatsDImage spec.

(** [GetVeleroFsfreezeImage] (line 494). *)
Definition GetVeleroFsfreezeImage (spec : VaultSpecRest.t) : string :=
  if bool_decide (VaultSpecRest.VeleroFsfreezeImage spec = "")
  then "ubuntu:bionic" else VaultSpecRest.VeleroFsfreezeImage spec.

(** [GetFluentDImage] (line 593). *)
Definition GetFluentDImage (spec : VaultSpecRest.t) : string :=
  if bool_decide (VaultSpecRest.FluentDImage spec = "")
  then "fluent/fluentd:edge" else VaultSpecRest.FluentDImage spec.

(** [GetFluentDConfMountPath] (line 601). *)
Definition GetFluentDConfMountPath (spec : VaultSpecRest.t) : string :=
  if bool_decide (VaultSpecRest.FluentDConfLocation spec = "")
  then "/fluentd/etc" else VaultSpecRest.FluentDConfLocation spec.

(** [GetConfigPath] (line 608). *)
Definition GetConfigPath (spec : VaultSpecRest.t) : string :=
  if bool_decide (VaultSpecRest.ConfigPath spec = "")
  then "/vault/config" else VaultSpecRest.ConfigPath spec.

(** [GetAPIPortName] (line 545). *)
Definition GetAPIPortName `{Cast} (spec : VaultSpec.t) (rest : VaultSpecRest.t)
  : string :=
  let portName := "api-port" in
  if VaultSpecRest.IstioEnabled rest then
    if IsTLSDisabled spec then "http-" +:+ portName
    else "https-" +:+ portName
  else portName.

(** [IsRaftBootstrapFollower] (line 648). *)
Definition IsRaftBootstrapFollower (spec : VaultSpecRest.t) : bool :=
  bool_decide (VaultSpecRest.RaftLeaderAddress spec ≠ "")
  && bool_decide (VaultSpecRest.RaftLeaderAddress spec ≠ "self").

(** The label, annotation and watch fields of [VaultSpec]: maps and
    slices that may be nil ([None]). *)
Module VaultSpecMaps.
Record t := {
  WatchedSecretsLabels : option (list (gmap string string));
  WatchedSecretsAnnotations : option (list (gmap string string));
  Annotations : option (gmap string string);
  VaultAnnotations : option (gmap string string);
  VaultLabels : option (gmap string string);
  VaultConfigurerAnnotations : option (gmap string string);
  VaultConfigurerLabels : option (gmap string string)
}.
End VaultSpecMaps.

(** The getters of lines 518-590 write an empty map or slice into a nil
    field before returning it; each returns its value together with the
    spec as it is afterwards. *)
Definition GetWatchedSecretsLabels (spec : VaultSpecMaps.t)
  : list (gmap string string) * VaultSpecMaps.t :=
  match VaultSpecMaps.WatchedSecretsLabels spec with
  | Some labels => (labels, spec)
  | None =>
      ([], {| VaultSpecMaps.WatchedSecretsLabels := Some [];
              VaultSpecMaps.WatchedSecretsAnnotations :=
                VaultSpecMaps.WatchedSecretsAnnotations spec;
              VaultSpecMaps.Annotations := VaultSpecMaps.Annotations spec;
              VaultSpecMaps.VaultAnnotations := VaultSpecMaps.VaultAnnotations spec;
              VaultSpecMaps.VaultLabels := VaultSpecMaps.VaultLabels spec;
              VaultSpecMaps.VaultConfigurerAnnotations :=
                VaultSpecMaps.VaultConfigurerAnnotations spec;
              VaultSpecMaps.VaultConfigurerLabels :=
                VaultSpecMaps.VaultConfigurerLabels spec |})
  end.

Definition GetWatchedSecretsAnnotations (spec : VaultSpecMaps.t)
  : list (gmap string string) * VaultSpecMaps.t :=
  match VaultSpecMaps.WatchedSecretsAnnotations spec with
  | Some annotations => (annotations, spec)
  | None =>
      ([], {| VaultSpecMaps.WatchedSecretsLabels :=
                VaultSpecMaps.WatchedSecretsLabels spec;
              VaultSpecMaps.WatchedSecretsAnnotations := Some [];
              VaultSpecMaps.Annotations := VaultSpecMaps.Annotations spec;
              VaultSpecMaps.VaultAnnotations := VaultSpecMaps.VaultAnnotations spec;
              VaultSpecMaps.VaultLabels := VaultSpecMaps.VaultLabels spec;
              VaultSpecMaps.VaultConfigurerAnnotations :=
                VaultSpecMaps.VaultConfigurerAnnotations spec;
              VaultSpecMaps.VaultConfigurerLabels :=
                VaultSpecMaps.VaultConfigurerLabels spec |})
  end.

Definition GetAnnotations (spec : VaultSpecMaps.t)
  : gmap string string * VaultSpecMaps.t :=
  match VaultSpecMaps.Annotations spec with
  | Some annotations => (annotations, spec)
  | None =>
      (∅, {| VaultSpecMaps.WatchedSecretsLabels :=
               VaultSpecMaps.WatchedSecretsLabels spec;
             VaultSpecMaps.WatchedSecretsAnnotations :=
               VaultSpecMaps.WatchedSecretsAnnotations spec;
             VaultSpecMaps.Annotations := Some ∅;
             VaultSpecMaps.VaultAnnotations := VaultSpecMaps.VaultAnnotations spec;
             VaultSpecMaps.VaultLabels := VaultSpecMaps.VaultLabels spec;
             VaultSpecMaps.VaultConfigurerAnnotations :=
               VaultSpecMaps.VaultConfigurerAnnotations spec;
             VaultSpecMaps.VaultConfigurerLabels :=
               VaultSpecMaps.VaultConfigurerLabels spec |})
  end.

Definition GetVaultLabels (spec : VaultSpecMaps.t)
  : gmap string string * VaultSpecMaps.t :=
  match VaultSpecMaps.VaultLabels spec with
  | Some labels => (labels, spec)
  | None =>
      (∅, {| VaultSpecMaps.WatchedSecretsLabels :=
               VaultSpecMaps.WatchedSecretsLabels spec;
             VaultSpecMaps.WatchedSecretsAnnotations :=
               VaultSpecMaps.WatchedSecretsAnnotations spec;
             VaultSpecMaps.Annotations := VaultSpecMaps.Annotations spec;
             VaultSpecMaps.VaultAnnotations := VaultSpecMaps.VaultAnnotations spec;
             VaultSpecMaps.VaultLabels := Some ∅;
             VaultSpecMaps.VaultConfigurerAnnotations :=
               VaultSpecMaps.VaultConfigurerAnnotations spec;
             VaultSpecMaps.VaultConfigurerLabels :=
               VaultSpecMaps.VaultConfigurerLabels spec |})
  end.

Definition GetVaultConfigurerLabels (spec : VaultSpecMaps.t)
  : gmap string string * VaultSpecMaps.t :=
  match VaultSpecMaps.VaultConfigurerLabels spec with
  | Some labels => (labels, spec)
  | None =>
      (∅, {| VaultSpecMaps.WatchedSecretsLabels :=
               VaultSpecMaps.WatchedSecretsLabels spec;
             VaultSpecMaps.WatchedSecretsAnnotations :=
               VaultSpecMaps.WatchedSecretsAnnotations spec;
             VaultSpecMaps.Annotations := VaultSpecMaps.Annotations spec;
             VaultSpecMaps.VaultAnnotations := VaultSpecMaps.VaultAnnotations spec;
             VaultSpecMaps.VaultLabels := VaultSpecMaps.VaultLabels spec;
             VaultSpecMaps.VaultConfigurerAnnotations :=
               VaultSpecMaps.VaultConfigurerAnnotations spec;
             VaultSpecMaps.VaultConfigurerLabels := Some ∅ |})
  end.

Definition GetVaultAnnotations (spec : VaultSpecMaps.t)
  : gmap string string * VaultSpecMaps.t :=
  match VaultSpecMaps.VaultAnnotations spec with
  | Some annotations => (annotations, spec)
  | None =>
      (∅, {| VaultSpecMaps.WatchedSecretsLabels :=
               VaultSpecMaps.WatchedSecretsLabels spec;
             VaultSpecMaps.WatchedSecretsAnnotations :=
               VaultSpecMaps.WatchedSecretsAnnotations spec;
             VaultSpecMaps.Annotations := VaultSpecMaps.Annotations spec;
             VaultSpecMaps.VaultAnnotations := Some ∅;
             VaultSpecMaps.VaultLabels := VaultSpecMaps.VaultLabels spec;
             VaultSpecMaps.VaultConfigurerAnnotations :=
               VaultSpecMaps.VaultConfigurerAnnotations spec;
             VaultSpecMaps.VaultConfigurerLabels :=
               VaultSpecMaps.VaultConfigurerLabels spec |})
  end.

Definition GetVaultConfigurerAnnotations (spec : VaultSpecMaps.t)
  : gmap string string * VaultSpecMaps.t :=
  match VaultSpecMaps.VaultConfigurerAnnotations spec with
  | Some annotations => (annotations, spec)
  | None =>
      (∅, {| VaultSpecMaps.WatchedSecretsLabels :=
               VaultSpecMaps.WatchedSecretsLabels spec;
             VaultSpecMaps.WatchedSecretsAnnotations :=
               VaultSpecMaps.WatchedSecretsAnnotations spec;
             VaultSpecMaps.Annotations := VaultSpecMaps.Annotations spec;
             VaultSpecMaps.VaultAnnotations := VaultSpecMaps.VaultAnnotations spec;
             VaultSpecMaps.VaultLabels := VaultSpecMaps.VaultLabels spec;
             VaultSpecMaps.VaultConfigurerAnnotations := Some ∅;
             VaultSpecMaps.VaultConfigurerLabels :=
               VaultSpecMaps.VaultConfigurerLabels spec |})
  end.

(** [HSMDaemonNeeded] (line 890). *)
Definition HSMDaemonNeeded (usc : UnsealConfig.t) : bool :=
  match UnsealConfig.HSM usc with
  | Some hsm => HSMUnsealConfig.Daemon hsm
  | None => false
  end.

(** [LabelsForVaultConfigurer] (line 1080). *)
Definition LabelsForVaultConfigurer (vault : Vault) : gmap string string :=
  {[ "app.kubernetes.io/name" := "vault-configurator"; "vault_cr" := Name vault ]}.

(** * Vocabulary of the properties, and the resources of the examples *)

(** ** The contract of the argument synthesizer, in the spec's words *)

(** The eight backend variants. *)
Inductive Backend :=
  | BGoogle | BAzure | BOracle | BAWS | BAlibaba | BRemoteServer | BHSM
  | BKubernetesSecret.

(** The fixed priority: Google, Azure, Oracle, AWS, Alibaba, remote
    server, HSM. *)
Definition priority : list Backend :=
  [BGoogle; BAzure; BOracle; BAWS; BAlibaba; BRemoteServer; BHSM].

Definition is_set (usc : UnsealConfig.t) (b : Backend) : bool :=
  match b with
  | BGoogle => bool_decide (is_Some (UnsealConfig.Google usc))
  | BAzure => bool_decide (is_Some (UnsealConfig.Azure usc))
  | BOracle => bool_decide (is_Some (UnsealConfig.OCI usc))
  | BAWS => bool_decide (is_Some (UnsealConfig.AWS usc))
  | BAlibaba => bool_decide (is_Some (UnsealConfig.Alibaba usc))
  | BRemoteServer => bool_decide (is_Some (UnsealConfig.Vault usc))
  | BHSM => bool_decide (is_Some (UnsealConfig.HSM usc))
  | BKubernetesSecret => true
  end.

(** First match wins; the Kubernetes secret only if none is set. *)
Definition selected (usc : UnsealConfig.t) : Backend :=
  default BKubernetesSecret (List.find (is_set usc) priority).

(** The mode name of a variant; the HSM has two. *)
Definition modeName (usc : UnsealConfig.t) (b : Backend) : string :=
  match b with
  | BGoogle => "google-cloud-kms-gcs"
  | BAzure => "azure-key-vault"
  | BOracle => "oci"
  | BAWS => "aws-kms-s3"
  | BAlibaba => "alibaba-kms-oss"
  | BRemoteServer => "vault"
  | BHSM =>
      if bool_decide (SecretNamespace (UnsealConfig.Kubernetes usc) = "")
         || bool_decide (SecretName (UnsealConfig.Kubernetes usc) = "")
      then "hsm" else "hsm-k8s"
  | BKubernetesSecret => "k8s"
  end.

Definition modeNames : list string :=
  ["google-cloud-kms-gcs"; "azure-key-vault"; "oci"; "aws-kms-s3";
   "alibaba-kms-oss"; "vault"; "hsm"; "hsm-k8s"; "k8s"].

(** The cross-cutting options: each contributes its own flag when it
    applies, in this order. *)
Definition crossCutting (opts : UnsealOptions) : list string :=
  (if bool_decide (PreFlightChecks opts = Some false)
   then ["--pre-flight-checks=false"] else [])
  ++ (if bool_decide (StoreRootToken opts = Some false)
      then ["--store-root-token=false"] else [])
  ++ (match SecretShares opts with
      | Some n => if bool_decide (0 < n)%N then ["--secret-shares"; Sprint n] else []
      | None => []
      end)
  ++ (match SecretThreshold opts with
      | Some n => if bool_decide (0 < n)%N then ["--secret-threshold"; Sprint n] else []
      | None => []
      end).

Definition crossCuttingFlags : list string :=
  ["--pre-flight-checks=false"; "--store-root-token=false";
   "--secret-shares"; "--secret-threshold"].

(** A flag of a backend: neither [--mode], nor a cross-cutting flag, nor a
    mode name. *)
Definition backendFlag (f : string) : bool :=
  bool_decide (f ∉ "--mode" :: crossCuttingFlags ++ modeNames).

(** A sequence of flag/value pairs whose flags satisfy [ok]. *)
Inductive flagValuePairs (ok : string → bool) : list string → Prop :=
  | fvp_nil : flagValuePairs ok []
  | fvp_cons f v l :
      ok f = true → flagValuePairs ok l → flagValuePairs ok (f :: v :: l).

(** The number of mode token pairs in an argument list: a [--mode] token
    directly followed by a mode name. *)
Fixpoint modePairs (args : list string) : nat :=
  match args with
  | a :: rest =>
      (match rest with
       | b :: _ =>
           if String.eqb a "--mode" then
             if bool_decide (b ∈ modeNames) then 1 else 0
           else 0
       | [] => 0
       end) + modePairs rest
  | [] => 0
  end.

(** The number of tokens equal to [tok]. *)
Definition countTokens (tok : string) (args : list string) : nat :=
  length (filter (λ a, a = tok) args).

(** No cross-cutting option is set. *)
Definition noOptions : UnsealOptions :=
  {| PreFlightChecks := None; StoreRootToken := None;
     SecretThreshold := None; SecretShares := None |}.

(** ** The options do not depend on the backend *)

(** The same configuration without cross-cutting options. *)
Definition clearOptions (usc : UnsealConfig.t) : UnsealConfig.t :=
  {| UnsealConfig.Options := noOptions;
     UnsealConfig.Kubernetes := UnsealConfig.Kubernetes usc;
     UnsealConfig.Google := UnsealConfig.Google usc;
     UnsealConfig.Alibaba := UnsealConfig.Alibaba usc;
     UnsealConfig.Azure := UnsealConfig.Azure usc;
     UnsealConfig.AWS := UnsealConfig.AWS usc;
     UnsealConfig.OCI := UnsealConfig.OCI usc;
     UnsealConfig.Vault := UnsealConfig.Vault usc;
     UnsealConfig.HSM := UnsealConfig.HSM usc |}.

(** ** Counting mode pairs *)

(** The next token, if any, is not a mode name. *)
Definition headOK (l : list string) : Prop :=
  match l with
  | [] => True
  | h :: _ => h ∉ modeNames
  end.

(** A group of the option part: nothing, a switch, or a flag with its
    value. *)
Inductive optionGroup : list string → Prop :=
  | og_none : optionGroup []
  | og_switch f :
      f ∉ modeNames → String.eqb f "--mode" = false → optionGroup [f]
  | og_pair f v :
      f ∉ modeNames → String.eqb f "--mode" = false → optionGroup [f; v].

(** ** The AWS variant *)

(** An unseal configuration with only the AWS variant set and no
    cross-cutting option. *)
Definition awsOnly (k8s : KubernetesUnsealConfig) (aws : AWSUnsealConfig.t)
  : UnsealConfig.t :=
  {| UnsealConfig.Options := noOptions;
     UnsealConfig.Kubernetes := k8s;
     UnsealConfig.Google := None;
     UnsealConfig.Alibaba := None;
     UnsealConfig.Azure := None;
     UnsealConfig.AWS := Some aws;
     UnsealConfig.OCI := None;
     UnsealConfig.Vault := None;
     UnsealConfig.HSM := None |}.

(** ** The remote-server variant *)

(** The three ways to authenticate against the remote server. *)
Inductive Credential :=
  | LiteralToken (token : string)
  | TokenFile (path : string)
  | RoleAuth (role authPath : string).

Definition credentialArgs (c : Credential) : list string :=
  match c with
  | LiteralToken token => ["--vault-token"; token]
  | TokenFile path => ["--vault-token-path"; path]
  | RoleAuth role authPath => ["--vault-role"; role; "--vault-auth-path"; authPath]
  end.

(** The fixed precedence: literal token first, else token file, else role;
    nothing when all three are empty. *)
Definition chosenCredential (v : VaultUnsealConfig.t) : option Credential :=
  if bool_decide (VaultUnsealConfig.Token v = "") then
    if bool_decide (VaultUnsealConfig.TokenPath v = "") then
      if bool_decide (VaultUnsealConfig.Role v = "") then None
      else Some (RoleAuth (VaultUnsealConfig.Role v) (VaultUnsealConfig.AuthPath v))
    else Some (TokenFile (VaultUnsealConfig.TokenPath v))
  else Some (LiteralToken (VaultUnsealConfig.Token v)).

(** The number of credential flags among the tokens. *)
Definition credentialFlags (args : list string) : nat :=
  countTokens "--vault-token" args + countTokens "--vault-token-path" args
  + countTokens "--vault-role" args.

(** A remote-server configuration that names an address and a key path
    but no token, token file or role. *)
Definition remoteWithoutCredential : UnsealConfig.t :=
  {| UnsealConfig.Options := noOptions;
     UnsealConfig.Kubernetes := {| SecretNamespace := ""; SecretName := "" |};
     UnsealConfig.Google := None;
     UnsealConfig.Alibaba := None;
     UnsealConfig.Azure := None;
     UnsealConfig.AWS := None;
     UnsealConfig.OCI := None;
     UnsealConfig.Vault :=
       Some {| VaultUnsealConfig.Address := "https://central-vault:8200";
               VaultUnsealConfig.UnsealKeysPath := "secret/unseal";
               VaultUnsealConfig.Role := "";
               VaultUnsealConfig.AuthPath := "";
               VaultUnsealConfig.TokenPath := "";
               VaultUnsealConfig.Token := "" |};
     UnsealConfig.HSM := None |}.

Definition vault0 : Vault :=
  {| Name := "vault"; Namespace := "default";
     Spec := {| VaultSpec.Image := "hashicorp/vault:1.14.8";
                VaultSpec.Config := RawValue (JObject ∅);
                VaultSpec.UnsealConfig := remoteWithoutCredential;
                VaultSpec.ServiceRegistrationEnabled := false;
                VaultSpec.Ingress := None;
                VaultSpec.TLSExpiryThreshold := "" |} |}.

(** A remote-server configuration that authenticates with a role. *)
Definition remoteWithRole : UnsealConfig.t :=
  {| UnsealConfig.Options :=
       {| PreFlightChecks := Some false; StoreRootToken := None;
          SecretThreshold := Some 2%N; SecretShares := Some 3%N |};
     UnsealConfig.Kubernetes := {| SecretNamespace := ""; SecretName := "" |};
     UnsealConfig.Google := None;
     UnsealConfig.Alibaba := None;
     UnsealConfig.Azure := None;
     UnsealConfig.AWS := None;
     UnsealConfig.OCI := None;
     UnsealConfig.Vault :=
       Some {| VaultUnsealConfig.Address := "https://central-vault:8200";
               VaultUnsealConfig.UnsealKeysPath := "secret/unseal";
               VaultUnsealConfig.Role := "unsealer";
               VaultUnsealConfig.AuthPath := "kubernetes";
               VaultUnsealConfig.TokenPath := "";
               VaultUnsealConfig.Token := "" |};
     UnsealConfig.HSM := None |}.

(** ** The label selector *)

(** The entries [k=v] of a label map, in the order of [map_to_list]. *)
Definition labelEntries (labels : gmap string string) : list string :=
  (λ kv, kv.1 +:+ "=" +:+ kv.2) <$> map_to_list labels.

(** ** Exactly one mode *)

(** A configuration with none of the seven backend pointers set. *)
Definition kubernetesOnly (opts : UnsealOptions) (k8s : KubernetesUnsealConfig)
  : UnsealConfig.t :=
  {| UnsealConfig.Options := opts;
     UnsealConfig.Kubernetes := k8s;
     UnsealConfig.Google := None;
     UnsealConfig.Alibaba := None;
     UnsealConfig.Azure := None;
     UnsealConfig.AWS := None;
     UnsealConfig.OCI := None;
     UnsealConfig.Vault := None;
     UnsealConfig.HSM := None |}.

(** ** The HA verdict *)

(** The entries of the configuration document, none when it is not an
    object.  A document with a number outside [float64] is read with nil
    in the place of the number. *)
Definition document (raw : RawJSON) : gmap string JSON :=
  match raw with
  | RawValue (JObject doc) | RawOutOfRange (JObject doc) => doc
  | _ => ∅
  end.

(** [stanza(doc, name)]: the named top-level stanza.  An object gives its
    entries and, as [cast.ToStringMap] reads it, a string those of the
    object it encodes; a missing key and any other value give the empty
    map. *)
Definition stanza `{Cast} (doc : gmap string JSON) (name : string)
  : gmap string JSON :=
  match doc !! name with
  | Some (JObject m) => m
  | Some (JString s) => jsonStringToObject s
  | _ => ∅
  end.

(** [backendType(stanza)]: the key of the stanza, the one that the walk
    yields first where there are several, the empty string where there is
    none. *)
Definition backendType `{MapIter} (tick : nat) (stanza : gmap string JSON)
  : string :=
  default "" (head (MapKeys tick stanza)).

(** The backend types of [HAStorageTypeTable]. *)
Definition haStorageTypeNames : list string :=
  ["consul"; "dynamodb"; "etcd"; "gcs"; "mysql"; "postgresql"; "raft"; "oci";
   "spanner"; "zookeeper"].

(** The parameters of a backend assert [ha_enabled]. *)
Definition assertsHA `{Cast} (params : JSON) : Prop :=
  ToBool (index (ToStringMap params) "ha_enabled") = true.

(** The resource of the raft scenario. *)
Definition raftSpec : VaultSpec.t :=
  {| VaultSpec.Image := "hashicorp/vault:1.14.8";
     VaultSpec.Config :=
       RawValue (JObject {["storage" := JObject {["raft" := JObject ∅]}]});
     VaultSpec.UnsealConfig := remoteWithRole;
     VaultSpec.ServiceRegistrationEnabled := true;
     VaultSpec.Ingress := None;
     VaultSpec.TLSExpiryThreshold := "" |}.

(** ** Merging the service-registration stanza *)

(** The value found by following [path] through nested objects. *)
Fixpoint lookupPath (path : list string) (v : JSON) : option JSON :=
  match path with
  | [] => Some v
  | k :: path' =>
      match v with
      | JObject m => m !! k ≫= lookupPath path'
      | _ => None
      end
  end.

(** A value is kept: a scalar or array is unchanged, an object is still an
    object with at least the same keys. *)
Definition kept (v v' : JSON) : Prop :=
  match v with
  | JObject m => ∃ m', v' = JObject m' ∧ dom m ⊆ dom m'
  | _ => v' = v
  end.

(** No key of [v], at any depth, is removed in [v'], and no key of [v]
    that holds a non-empty value is overwritten. *)
Definition preserves (v v' : JSON) : Prop :=
  ∀ path x,
    lookupPath path v = Some x →
    ∃ x', lookupPath path v' = Some x' ∧ (isEmptyValue x = false → kept x x').

(** The fragment that defines one leaf at the end of a path. *)
Fixpoint chain (path : list string) (leaf : string) : Src :=
  match path with
  | [] => SrcString leaf
  | k :: path' => SrcMap [(k, chain path' leaf)]
  end.

(** The path is free for the fragment: every value on it is missing,
    empty, or an object to descend into. *)
Fixpoint fillable (path : list string) (v : option JSON) : bool :=
  match v with
  | None => true
  | Some d =>
      isEmptyValue d
      || match path, d with
         | k :: path', JObject m => fillable path' (m !! k)
         | _, _ => false
         end
  end.

(** The path of the leaf that [ConfigJSON] merges in. *)
Definition namespacePath : list string :=
  ["service_registration"; "kubernetes"; "namespace"].

(** A raft resource with service registration enabled whose document
    already has a [service_registration] stanza of its own. *)
Definition registeredVault (stanza : JSON) : Vault :=
  {| Name := "vault"; Namespace := "vault-system";
     Spec := {| VaultSpec.Image := "hashicorp/vault:1.14.8";
                VaultSpec.Config :=
                  RawValue (JObject {[ "storage" := JObject {["raft" := JObject ∅]};
                                   "service_registration" := stanza ]});
                VaultSpec.UnsealConfig := remoteWithRole;
                VaultSpec.ServiceRegistrationEnabled := true;
                VaultSpec.Ingress := None;
                VaultSpec.TLSExpiryThreshold := "" |} |}.

(** ** The version of the image *)

Definition withImage (image : string) : VaultSpec.t :=
  {| VaultSpec.Image := image;
     VaultSpec.Config := RawInvalid;
     VaultSpec.UnsealConfig := kubernetesOnly noOptions
       {| SecretNamespace := ""; SecretName := "" |};
     VaultSpec.ServiceRegistrationEnabled := false;
     VaultSpec.Ingress := None;
     VaultSpec.TLSExpiryThreshold := "" |}.

(** *** A pair of parsers to run the examples on

    A reading of the two grammars that is enough for references of the
    form [name[:tag][@digest]]: the tag is what follows the last colon
    after the last slash, names are normalized the Docker way, and a
    version is [v?MAJOR[.MINOR[.PATCH]][-PRE][+META]]. *)

Module Parsers.

Definition isDigit (c : ascii) : bool := (("0" <=? c) && (c <=? "9"))%char.
Definition isLower (c : ascii) : bool := (("a" <=? c) && (c <=? "z"))%char.
Definition isUpper (c : ascii) : bool := (("A" <=? c) && (c <=? "Z"))%char.
Definition isWord (c : ascii) : bool :=
  isDigit c || isLower c || isUpper c || Ascii.eqb c "_".
Definition isTagChar (c : ascii) : bool :=
  isWord c || Ascii.eqb c "." || Ascii.eqb c "-".
Definition isHex (c : ascii) : bool :=
  isDigit c || (("a" <=? c) && (c <=? "f"))%char.
Definition isPreChar (c : ascii) : bool :=
  isDigit c || isLower c || isUpper c || Ascii.eqb c "-" || Ascii.eqb c ".".

Fixpoint all (p : ascii → bool) (s : string) : bool :=
  match s with
  | EmptyString => true
  | String c rest => p c && all p rest
  end.

(** The longest prefix of characters in [p], and the rest. *)
Fixpoint span (p : ascii → bool) (s : string) : string * string :=
  match s with
  | EmptyString => (EmptyString, EmptyString)
  | String c rest =>
      if p c then let '(a, b) := span p rest in (String c a, b)
      else (EmptyString, s)
  end.

(** Split at the first [sep]. *)
Fixpoint cut (sep : ascii) (s : string) : option (string * string) :=
  match s with
  | EmptyString => None
  | String c rest =>
      if Ascii.eqb c sep then Some (EmptyString, rest)
      else match cut sep rest with
           | Some (a, b) => Some (String c a, b)
           | None => None
           end
  end.

(** Split at the last [sep]. *)
Fixpoint cutLast (sep : ascii) (s : string) : option (string * string) :=
  match s with
  | EmptyString => None
  | String c rest =>
      match cutLast sep rest with
      | Some (a, b) => Some (String c a, b)
      | None => if Ascii.eqb c sep then Some (EmptyString, rest) else None
      end
  end.

Fixpoint decimal (acc : N) (s : string) : N :=
  match s with
  | EmptyString => acc
  | String c rest => decimal (10 * acc + (N_of_ascii c - 48)) rest
  end.

(** Runs a character automaton over a string. *)
Fixpoint run {S : Type} (step : S → ascii → option S) (st : S) (s : string)
  : option S :=
  match s with
  | EmptyString => Some st
  | String c rest =>
      match step st c with
      | Some st' => run step st' rest
      | None => None
      end
  end.

(** Path components joined by slashes: runs of lower-case letters and
    digits, separated by one dot, one or two underscores, or dashes. *)
Inductive pathState := PStart | PAlnum | PDot | PUnder1 | PUnder2 | PDash.

Definition pathStep (st : pathState) (c : ascii) : option pathState :=
  if isDigit c || isLower c then Some PAlnum
  else
    match st with
    | PAlnum =>
        if Ascii.eqb c "." then Some PDot
        else if Ascii.eqb c "_" then Some PUnder1
        else if Ascii.eqb c "-" then Some PDash
        else if Ascii.eqb c "/" then Some PStart
        else None
    | PUnder1 => if Ascii.eqb c "_" then Some PUnder2 else None
    | PDash => if Ascii.eqb c "-" then Some PDash else None
    | _ => None
    end.

Definition validPath (s : string) : bool :=
  match run pathStep PStart s with
  | Some PAlnum => true
  | _ => false
  end.

(** Host names: labels of letters, digits and inner dashes joined by
    dots. *)
Inductive hostState := HStart | HAlnum | HDash.

Definition hostStep (st : hostState) (c : ascii) : option hostState :=
  if isDigit c || isLower c || isUpper c then Some HAlnum
  else
    match st with
    | HAlnum =>
        if Ascii.eqb c "-" then Some HDash
        else if Ascii.eqb c "." then Some HStart
        else None
    | HDash => if Ascii.eqb c "-" then Some HDash else None
    | HStart => None
    end.

Definition validHost (s : string) : bool :=
  match run hostStep HStart s with
  | Some HAlnum => true
  | _ => false
  end.

Definition validDomain (domain : string) : bool :=
  match cut ":" domain with
  | Some (host, port) =>
      validHost host && all isDigit port && negb (String.length port =? 0)
  | None => validHost domain
  end.

(** [splitDockerDomain]: the domain and the remainder of a familiar
    name. *)
Definition splitDockerDomain (name : string) : string * string :=
  let official remainder :=
    if bool_decide (cut "/" remainder = None)
    then "library/" +:+ remainder else remainder in
  match cut "/" name with
  | Some (domain, remainder) =>
      if negb (all (λ c, negb (Ascii.eqb c "." || Ascii.eqb c ":")) domain)
         || bool_decide (domain = "localhost")
      then if bool_decide (domain = "index.docker.io" ∨ domain = "docker.io")
           then ("docker.io", official remainder)
           else (domain, remainder)
      else ("docker.io", name)
  | None => ("docker.io", official name)
  end.

Definition validTag (tag : string) : bool :=
  match tag with
  | EmptyString => false
  | String c rest => isWord c && all isTagChar rest && (String.length tag <=? 128)
  end.

Definition validDigest (digest : string) : bool :=
  match cut ":" digest with
  | Some (algorithm, hex) =>
      bool_decide (algorithm = "sha256") && all isHex hex
      && (String.length hex =? 64)
  | None => false
  end.

Definition invalidFormat : error := "invalid reference format".

Definition parseAnyReference (ref : string) : error + reference.Reference :=
  if all isHex ref && (String.length ref =? 64)
  then inr (reference.digestReference ("sha256:" +:+ ref))
  else if validDigest ref then inr (reference.digestReference ref)
  else
    let '(named, digest) :=
      match cut "@" ref with
      | Some (named, digest) => (named, Some digest)
      | None => (ref, None)
      end in
    let '(domain, remainder) := splitDockerDomain named in
    let '(path, tag) :=
      match cutLast "/" remainder with
      | Some (dir, base) =>
          match cut ":" base with
          | Some (base, tag) => (dir +:+ "/" +:+ base, Some tag)
          | None => (remainder, None)
          end
      | None =>
          match cut ":" remainder with
          | Some (base, tag) => (base, Some tag)
          | None => (remainder, None)
          end
      end in
    let name := domain +:+ "/" +:+ path in
    if negb ((validDomain domain && validPath path) || validPath name)
       || (255 <? String.length name)
    then inl invalidFormat
    else
      match tag, digest with
      | None, None => inr (reference.repository name)
      | Some tag, None =>
          if validTag tag then inr (reference.taggedReference name tag)
          else inl invalidFormat
      | None, Some digest =>
          if validDigest digest then inr (reference.canonicalReference name digest)
          else inl invalidFormat
      | Some tag, Some digest =>
          if validTag tag && validDigest digest
          then inr (reference.reference name tag digest)
          else inl invalidFormat
      end.

Definition ErrInvalidSemVer : error := "Invalid Semantic Version".

(** An optional [.NUMBER] group. *)
Definition dotNumber (s : string) : option (N * string) :=
  match s with
  | String "." rest =>
      let '(digits, rest') := span isDigit rest in
      if bool_decide (digits = EmptyString) then None
      else Some (decimal 0 digits, rest')
  | _ => Some (0%N, s)
  end.

(** An optional group of identifiers after [sep]. *)
Definition suffix (sep : ascii) (s : string) : option (string * string) :=
  match s with
  | String c rest =>
      if Ascii.eqb c sep then
        let '(ids, rest') := span isPreChar rest in
        if bool_decide (ids = EmptyString) then None else Some (ids, rest')
      else Some (EmptyString, s)
  | EmptyString => Some (EmptyString, s)
  end.

Definition newVersion (v : string) : error + semver.Version :=
  let body := match v with String "v" rest => rest | _ => v end in
  let '(digits, rest) := span isDigit body in
  if bool_decide (digits = EmptyString) then inl ErrInvalidSemVer
  else
    match dotNumber rest with
    | None => inl ErrInvalidSemVer
    | Some (minor, rest) =>
        match dotNumber rest with
        | None => inl ErrInvalidSemVer
        | Some (patch, rest) =>
            match suffix "-" rest with
            | None => inl ErrInvalidSemVer
            | Some (pre, rest) =>
                match suffix "+" rest with
                | Some (metadata, EmptyString) =>
                    inr {| semver.major := decimal 0 digits;
                           semver.minor := minor;
                           semver.patch := patch;
                           semver.pre := pre;
                           semver.metadata := metadata;
                           semver.original := v |}
                | _ => inl ErrInvalidSemVer
                end
            end
        end
    end.

Definition parsers : VersionParsers :=
  {| ParseAnyReference := parseAnyReference; NewVersion := newVersion |}.

End Parsers.

(** ** The TLS expiry threshold *)

Definition withThreshold (threshold : string) : VaultSpec.t :=
  {| VaultSpec.Image := "";
     VaultSpec.Config := RawInvalid;
     VaultSpec.UnsealConfig := kubernetesOnly noOptions
       {| SecretNamespace := ""; SecretName := "" |};
     VaultSpec.ServiceRegistrationEnabled := false;
     VaultSpec.Ingress := None;
     VaultSpec.TLSExpiryThreshold := threshold |}.

(** A duration parser that knows whole hours only: [<digits>h]. *)
Definition hoursOnly : DurationParser := λ s,
  match Parsers.span Parsers.isDigit s with
  | (String c digits, "h") =>
      inr (Z.of_N (Parsers.decimal 0 (String c digits)) * Hour)%Z
  | _ => inl ("time: invalid duration " +:+ s)
  end.

(** ** Ingress defaulting *)

(** The three backend-protocol annotations. *)
Definition tlsAnnotations : list (string * string) :=
  [("nginx.ingress.kubernetes.io/backend-protocol", "HTTPS");
   ("ingress.kubernetes.io/protocol", "https");
   ("ingress.kubernetes.io/secure-backends", "true")].

(** The default backend: the service of the resource on port 8200. *)
Definition vaultBackend (vault : Vault) : netv1.IngressBackend :=
  {| netv1.Service :=
       Some {| netv1.Name := Name vault;
               netv1.Port := {| netv1.PortName := ""; netv1.Number := 8200 |} |} |}.

(** An ingress with one annotation of the user's, no rules and no default
    backend, on a resource whose listener does not disable TLS. *)
Definition userIngress : Ingress.t :=
  {| Ingress.Annotations := Some {["kubernetes.io/ingress.class" := "nginx"]};
     Ingress.Spec := {| netv1.IngressClassName := None;
                        netv1.DefaultBackend := None;
                        netv1.Rules := [] |} |}.

Definition ingressVault : Vault :=
  {| Name := "vault"; Namespace := "default";
     Spec := {| VaultSpec.Image := "hashicorp/vault:1.14.8";
                VaultSpec.Config :=
                  RawValue (JObject {["listener" :=
                    JObject {["tcp" :=
                      JObject {["address" := JString "0.0.0.0:8200"]}]}]});
                VaultSpec.UnsealConfig := remoteWithRole;
                VaultSpec.ServiceRegistrationEnabled := false;
                VaultSpec.Ingress := Some userIngress;
                VaultSpec.TLSExpiryThreshold := "" |} |}.

(** ** Vocabulary of the further properties *)

(** The configuration with every backend pointer but the selected one
    cleared. *)
Definition onlySelected (usc : UnsealConfig.t) : UnsealConfig.t :=
  let b := selected usc in
  {| UnsealConfig.Options := UnsealConfig.Options usc;
     UnsealConfig.Kubernetes := UnsealConfig.Kubernetes usc;
     UnsealConfig.Google :=
       match b with BGoogle => UnsealConfig.Google usc | _ => None end;
     UnsealConfig.Alibaba :=
       match b with BAlibaba => UnsealConfig.Alibaba usc | _ => None end;
     UnsealConfig.Azure :=
       match b with BAzure => UnsealConfig.Azure usc | _ => None end;
     UnsealConfig.AWS :=
       match b with BAWS => UnsealConfig.AWS usc | _ => None end;
     UnsealConfig.OCI :=
       match b with BOracle => UnsealConfig.OCI usc | _ => None end;
     UnsealConfig.Vault :=
       match b with BRemoteServer => UnsealConfig.Vault usc | _ => None end;
     UnsealConfig.HSM :=
       match b with BHSM => UnsealConfig.HSM usc | _ => None end |}.

Definition withKubernetes (usc : UnsealConfig.t) (k8s : KubernetesUnsealConfig)
  : UnsealConfig.t :=
  {| UnsealConfig.Options := UnsealConfig.Options usc;
     UnsealConfig.Kubernetes := k8s;
     UnsealConfig.Google := UnsealConfig.Google usc;
     UnsealConfig.Alibaba := UnsealConfig.Alibaba usc;
     UnsealConfig.Azure := UnsealConfig.Azure usc;
     UnsealConfig.AWS := UnsealConfig.AWS usc;
     UnsealConfig.OCI := UnsealConfig.OCI usc;
     UnsealConfig.Vault := UnsealConfig.Vault usc;
     UnsealConfig.HSM := UnsealConfig.HSM usc |}.

Definition withOptions (usc : UnsealConfig.t) (opts : UnsealOptions)
  : UnsealConfig.t :=
  {| UnsealConfig.Options := opts;
     UnsealConfig.Kubernetes := UnsealConfig.Kubernetes usc;
     UnsealConfig.Google := UnsealConfig.Google usc;
     UnsealConfig.Alibaba := UnsealConfig.Alibaba usc;
     UnsealConfig.Azure := UnsealConfig.Azure usc;
     UnsealConfig.AWS := UnsealConfig.AWS usc;
     UnsealConfig.OCI := UnsealConfig.OCI usc;
     UnsealConfig.Vault := UnsealConfig.Vault usc;
     UnsealConfig.HSM := UnsealConfig.HSM usc |}.

(** No Kubernetes secret is named. *)
Definition noSecret : KubernetesUnsealConfig :=
  {| SecretNamespace := ""; SecretName := "" |}.

(** The options with every setting that has no effect removed: a toggle
    set to true and a count of zero. *)
Definition effectiveOptions (opts : UnsealOptions) : UnsealOptions :=
  {| PreFlightChecks :=
       match PreFlightChecks opts with Some false => Some false | _ => None end;
     StoreRootToken :=
       match StoreRootToken opts with Some false => Some false | _ => None end;
     SecretThreshold :=
       match SecretThreshold opts with
       | Some n => if bool_decide (n = 0%N) then None else Some n
       | None => None
       end;
     SecretShares :=
       match SecretShares opts with
       | Some n => if bool_decide (n = 0%N) then None else Some n
       | None => None
       end |}.

(** A flag with its value, left out when the value is empty. *)
Definition optional (flag value : string) : list string :=
  if bool_decide (value = "") then [] else [flag; value].

(** The flags of an argument list as a command line reads it: the two
    switches stand alone, any other flag takes the next token as its
    value. *)
Fixpoint flagTokens (args : list string) : list string :=
  match args with
  | [] => []
  | f :: rest =>
      if bool_decide (f ∈ ["--pre-flight-checks=false"; "--store-root-token=false"])
      then f :: flagTokens rest
      else f :: match rest with
                | [] => []
                | _ :: rest' => flagTokens rest'
                end
  end.

(** The flags of a sequence of flag/value pairs. *)
Fixpoint flagsOf (l : list string) : list string :=
  match l with
  | f :: _ :: l' => f :: flagsOf l'
  | _ => []
  end.

(** An HSM configuration with a pin, a daemon and a Kubernetes secret for
    the key metadata. *)
Definition hsmWithSecret : UnsealConfig.t :=
  {| UnsealConfig.Options := noOptions;
     UnsealConfig.Kubernetes :=
       {| SecretNamespace := "vault-system"; SecretName := "hsm-keys" |};
     UnsealConfig.Google := None;
     UnsealConfig.Alibaba := None;
     UnsealConfig.Azure := None;
     UnsealConfig.AWS := None;
     UnsealConfig.OCI := None;
     UnsealConfig.Vault := None;
     UnsealConfig.HSM :=
       Some {| HSMUnsealConfig.Daemon := true;
               HSMUnsealConfig.ModulePath := "/usr/lib/opensc-pkcs11.so";
               HSMUnsealConfig.SlotID := 0;
               HSMUnsealConfig.TokenLabel := "";
               HSMUnsealConfig.Pin := "123456";
               HSMUnsealConfig.KeyLabel := "bank-vaults" |} |}.

(** The resource with another configuration document. *)
Definition withConfig (vault : Vault) (config : RawJSON) : Vault :=
  {| Name := Name vault; Namespace := Namespace vault;
     Spec := {| VaultSpec.Image := VaultSpec.Image (Spec vault);
                VaultSpec.Config := config;
                VaultSpec.UnsealConfig := VaultSpec.UnsealConfig (Spec vault);
                VaultSpec.ServiceRegistrationEnabled :=
                  VaultSpec.ServiceRegistrationEnabled (Spec vault);
                VaultSpec.Ingress := VaultSpec.Ingress (Spec vault);
                VaultSpec.TLSExpiryThreshold :=
                  VaultSpec.TLSExpiryThreshold (Spec vault) |} |}.

(** A resource that keeps its data in files and coordinates through a
    raft [ha_storage] stanza. *)
Definition raftHAVault : Vault :=
  withConfig (registeredVault JNull)
    (RawValue (JObject {[ "storage" := JObject {["file" := JObject ∅]};
                      "ha_storage" := JObject {["raft" := JObject ∅]} ]})).

(** What the getters of lines 518-590 leave behind in the spec. *)
Definition lazyInits : list (VaultSpecMaps.t → VaultSpecMaps.t) :=
  [ λ spec, (GetWatchedSecretsLabels spec).2;
    λ spec, (GetWatchedSecretsAnnotations spec).2;
    λ spec, (GetAnnotations spec).2;
    λ spec, (GetVaultLabels spec).2;
    λ spec, (GetVaultConfigurerLabels spec).2;
    λ spec, (GetVaultAnnotations spec).2;
    λ spec, (GetVaultConfigurerAnnotations spec).2 ].

(** * Properties *)

(** ** The options do not depend on the backend *)

Lemma ToArgs_options `{MapIter} tick usc vault :
  ToArgs tick usc vault
  = crossCutting (UnsealConfig.Options usc)
      ++ ToArgs tick (clearOptions usc) vault.
Proof.
  unfold ToArgs. cbv zeta.
  set (args := match SecretThreshold (UnsealConfig.Options usc) with
               | Some _ => _ | None => _ end).
  assert (args = crossCutting (UnsealConfig.Options usc)) as ->.
  { subst args. unfold crossCutting.
    destruct (UnsealConfig.Options usc) as [[[]|] [[]|] [n|] [m|]]; simpl;
      repeat case_bool_decide; repeat case_match;
      try reflexivity; try lia;
      repeat match goal with
        | H : (_ <? _)%N = true |- _ => apply N.ltb_lt in H
        | H : (_ <? _)%N = false |- _ => apply N.ltb_ge in H
        end; try lia; try congruence. }
  generalize (crossCutting (UnsealConfig.Options usc)); intros pre.
  destruct usc as [opts k8s g al az aws oci v hsm]; simpl.
  repeat case_match; simpl; rewrite <- ?app_assoc; try reflexivity.
Qed.

(** ** Shape of the argument list *)

Lemma flagValuePairs_app ok l1 l2 :
  flagValuePairs ok l1 → flagValuePairs ok l2 → flagValuePairs ok (l1 ++ l2).
Proof.
  induction 1 as [|f v l Hf _ IH]; intros H2; simpl; [done|].
  constructor; auto.
Qed.

(** Closes [flagValuePairs] goals over lists of literal flags. *)
Ltac fvp :=
  repeat first
    [ apply fvp_nil
    | apply fvp_cons; [reflexivity|]
    | apply flagValuePairs_app ].

(** The options are handled before any backend is looked at. *)
Lemma ToArgs_shape `{MapIter} tick usc vault :
  ∃ rest,
    ToArgs tick usc vault
    = crossCutting (UnsealConfig.Options usc)
        ++ "--mode" :: modeName usc (selected usc) :: rest
    ∧ flagValuePairs backendFlag rest.
Proof.
  rewrite ToArgs_options.
  enough (∃ rest,
    ToArgs tick (clearOptions usc) vault
    = "--mode" :: modeName usc (selected usc) :: rest
    ∧ flagValuePairs backendFlag rest) as (rest & -> & Hrest) by eauto.
  destruct usc as [opts k8s g al az aws oci v hsm].
  unfold ToArgs, clearOptions, selected, modeName; simpl.
  destruct g as [g|]; simpl; [eexists; split; [reflexivity|fvp]|].
  destruct az as [az|]; simpl; [eexists; split; [reflexivity|fvp]|].
  destruct oci as [oci|]; simpl; [eexists; split; [reflexivity|fvp]|].
  destruct aws as [aws|]; simpl.
  { case_decide; (eexists; split; [reflexivity|fvp]). }
  destruct al as [al|]; simpl; [eexists; split; [reflexivity|fvp]|].
  destruct v as [v|]; simpl.
  { repeat case_decide; (eexists; split; [reflexivity|fvp]). }
  destruct hsm as [hsm|]; simpl; [|eexists; split; [reflexivity|fvp]].
  destruct (decide (SecretNamespace k8s ≠ "" ∧ SecretName k8s ≠ ""))
    as [[Hns Hn]|Hk].
  - rewrite !bool_decide_eq_false_2 by done. simpl.
    repeat case_decide; try done; simpl;
      (eexists; split; [reflexivity|fvp]).
  - assert (bool_decide (SecretNamespace k8s = "")
            || bool_decide (SecretName k8s = "") = true) as ->.
    { apply orb_true_iff. rewrite !bool_decide_eq_true.
      destruct (decide (SecretNamespace k8s = "")); [by left|].
      destruct (decide (SecretName k8s = "")); [by right|].
      destruct Hk; done. }
    repeat case_decide; try done; simpl;
      (eexists; split; [reflexivity|fvp]).
Qed.

(** ** Counting mode pairs *)

(** Decides a closed, decidable statement about literals. *)
Ltac by_evaluation := apply (bool_decide_unpack _); vm_compute; exact I.

Lemma modePairs_flag f l :
  String.eqb f "--mode" = false → modePairs (f :: l) = modePairs l.
Proof. intros Hf. destruct l; simpl; rewrite ?Hf; done. Qed.

Lemma modePairs_value v l : headOK l → modePairs (v :: l) = modePairs l.
Proof.
  destruct l as [|h t]; simpl; [done|]. intros Hh.
  rewrite bool_decide_eq_false_2 by done.
  by destruct (String.eqb v "--mode").
Qed.

Lemma backendFlag_spec f :
  backendFlag f = true →
  f ≠ "--mode" ∧ (f ∉ crossCuttingFlags) ∧ (f ∉ modeNames).
Proof.
  unfold backendFlag. rewrite bool_decide_eq_true.
  rewrite not_elem_of_cons, not_elem_of_app. tauto.
Qed.

Lemma modePairs_pairs rest :
  flagValuePairs backendFlag rest → ∀ v, modePairs (v :: rest) = 0.
Proof.
  induction 1 as [|f v' l Hf _ IH]; intros v; [done|].
  apply backendFlag_spec in Hf as (Hm & _ & Hn).
  rewrite modePairs_value by done.
  rewrite modePairs_flag; [|by apply String.eqb_neq].
  apply IH.
Qed.

Lemma modePairs_optionGroup g l :
  optionGroup g → headOK l →
  headOK (g ++ l) ∧ modePairs (g ++ l) = modePairs l.
Proof.
  intros [|f Hn Hm|f v Hn Hm] Hl; simpl app; [done| |].
  - by rewrite modePairs_flag.
  - rewrite modePairs_flag by done. by rewrite modePairs_value.
Qed.

Lemma modePairs_crossCutting opts l :
  headOK l → modePairs (crossCutting opts ++ l) = modePairs l.
Proof.
  intros Hl. unfold crossCutting. rewrite <- !app_assoc.
  assert (∀ (c : bool) f, f ∉ modeNames → String.eqb f "--mode" = false →
            optionGroup (if c then [f] else [])) as Hsw.
  { intros [] f ??; by constructor. }
  assert (∀ (o : option N) f, f ∉ modeNames → String.eqb f "--mode" = false →
            optionGroup (match o with
                         | Some n => if bool_decide (0 < n)%N then [f; Sprint n] else []
                         | None => []
                         end)) as Hpr.
  { intros [n|] f ??; [case_bool_decide|]; by constructor. }
  set (g1 := if bool_decide (PreFlightChecks opts = _) then _ else _).
  set (g2 := if bool_decide (StoreRootToken opts = _) then _ else _).
  set (g3 := match SecretShares opts with Some _ => _ | None => _ end).
  set (g4 := match SecretThreshold opts with Some _ => _ | None => _ end).
  destruct (modePairs_optionGroup g4 l) as [Hh4 He4];
    [apply Hpr; [by_evaluation|reflexivity]|done|].
  destruct (modePairs_optionGroup g3 (g4 ++ l)) as [Hh3 He3];
    [apply Hpr; [by_evaluation|reflexivity]|done|].
  destruct (modePairs_optionGroup g2 (g3 ++ g4 ++ l)) as [Hh2 He2];
    [apply Hsw; [by_evaluation|reflexivity]|done|].
  destruct (modePairs_optionGroup g1 (g2 ++ g3 ++ g4 ++ l)) as [Hh1 He1];
    [apply Hsw; [by_evaluation|reflexivity]|done|].
  congruence.
Qed.

Lemma modeName_in usc b : modeName usc b ∈ modeNames.
Proof. destruct b; simpl; try case_match; by_evaluation. Qed.

(** Every argument list holds exactly one mode token pair. *)
Lemma ToArgs_modePairs `{MapIter} tick usc vault :
  modePairs (ToArgs tick usc vault) = 1.
Proof.
  destruct (ToArgs_shape tick usc vault) as (rest & -> & Hrest).
  rewrite modePairs_crossCutting by by_evaluation.
  change (modePairs ("--mode" :: modeName usc (selected usc) :: rest))
    with ((if bool_decide (modeName usc (selected usc) ∈ modeNames) then 1 else 0)
          + modePairs (modeName usc (selected usc) :: rest)).
  rewrite bool_decide_eq_true_2 by apply modeName_in.
  by rewrite modePairs_pairs.
Qed.

(** [C1] The backend is selected by the fixed priority Google, Azure,
    Oracle, AWS, Alibaba, remote server, HSM, with the Kubernetes secret
    as the default when none is set: the argument list is the
    cross-cutting flags that apply, then [--mode] with the mode name of
    the selected variant, then that variant's flag/value pairs, none of
    which is a cross-cutting flag.  At most one mode token pair
    appears. *)
Theorem ToArgs_priority_selection `{MapIter} tick usc vault :
  (∃ rest,
     ToArgs tick usc vault
     = crossCutting (UnsealConfig.Options usc)
         ++ "--mode" :: modeName usc (selected usc) :: rest
     ∧ flagValuePairs backendFlag rest)
  ∧ modePairs (ToArgs tick usc vault) ≤ 1.
Proof.
  split; [apply ToArgs_shape|]. by rewrite ToArgs_modePairs.
Qed.

(** ** The AWS variant *)

(** [C3] With only the AWS variant set (key id [k1], region [r1], bucket
    [b1], prefix [p1], the rest empty) the arguments are exactly the
    fourteen tokens of the scenario, empty fields included as empty
    tokens; for any AWS parameters the same twelve flag/value tokens
    follow the mode pair and [--aws-kms-encryption-context] is added
    exactly when the encryption context is not empty. *)
Theorem ToArgs_aws_only `{MapIter} tick k8s vault :
  ToArgs tick
    (awsOnly k8s {| AWSUnsealConfig.KMSKeyID := "k1";
                    AWSUnsealConfig.KMSRegion := "r1";
                    AWSUnsealConfig.KMSEncryptionContext := "";
                    AWSUnsealConfig.S3Bucket := "b1";
                    AWSUnsealConfig.S3Prefix := "p1";
                    AWSUnsealConfig.S3Region := "";
                    AWSUnsealConfig.S3SSE := "" |}) vault
  = ["--mode"; "aws-kms-s3"; "--aws-kms-key-id"; "k1";
     "--aws-kms-region"; "r1"; "--aws-s3-bucket"; "b1";
     "--aws-s3-prefix"; "p1"; "--aws-s3-region"; "";
     "--aws-s3-sse-algo"; ""]
  ∧ ∀ aws,
      ToArgs tick (awsOnly k8s aws) vault
      = ["--mode"; "aws-kms-s3";
         "--aws-kms-key-id"; AWSUnsealConfig.KMSKeyID aws;
         "--aws-kms-region"; AWSUnsealConfig.KMSRegion aws;
         "--aws-s3-bucket"; AWSUnsealConfig.S3Bucket aws;
         "--aws-s3-prefix"; AWSUnsealConfig.S3Prefix aws;
         "--aws-s3-region"; AWSUnsealConfig.S3Region aws;
         "--aws-s3-sse-algo"; AWSUnsealConfig.S3SSE aws]
        ++ (if bool_decide (AWSUnsealConfig.KMSEncryptionContext aws = "")
            then []
            else ["--aws-kms-encryption-context";
                  AWSUnsealConfig.KMSEncryptionContext aws]).
Proof.
  split; [reflexivity|].
  intros aws. unfold ToArgs, awsOnly; simpl.
  case_decide; case_bool_decide; done.
Qed.

(** ** The remote-server variant *)

(** [C5], as stated, fails: with the remote-server variant selected and
    token, token path and role all empty, the arguments stop after the
    key path and none of the three credentials is emitted. *)
Lemma ToArgs_remote_without_credential :
  selected remoteWithoutCredential = BRemoteServer
  ∧ @ToArgs ordered_iter 0 remoteWithoutCredential vault0
    = ["--mode"; "vault"; "--vault-addr"; "https://central-vault:8200";
       "--vault-unseal-keys-path"; "secret/unseal"]
  ∧ credentialFlags (@ToArgs ordered_iter 0 remoteWithoutCredential vault0) = 0
  ∧ ¬ (∀ usc, selected usc = BRemoteServer →
         credentialFlags (@ToArgs ordered_iter 0 usc vault0) = 1).
Proof.
  split; [reflexivity|]. split; [reflexivity|]. split; [reflexivity|].
  intros Hall. specialize (Hall remoteWithoutCredential eq_refl).
  vm_compute in Hall. discriminate.
Qed.

Lemma selected_remote usc :
  selected usc = BRemoteServer →
  UnsealConfig.Google usc = None ∧ UnsealConfig.Azure usc = None
  ∧ UnsealConfig.OCI usc = None ∧ UnsealConfig.AWS usc = None
  ∧ UnsealConfig.Alibaba usc = None ∧ is_Some (UnsealConfig.Vault usc).
Proof.
  destruct usc as [opts k8s [g|] [al|] [az|] [aws|] [oci|] [v|] [hsm|]];
    unfold selected; simpl; intros Hs; try discriminate; eauto 10.
Qed.

(** [C5], amended: when the remote-server variant is selected, the mode
    pair, the address and the key path are followed by at most one
    credential, chosen by the precedence literal token, token file, role
    with its auth path; none is emitted exactly when token, token path and
    role are all empty. *)
Theorem ToArgs_remote_credential `{MapIter} tick usc vault :
  selected usc = BRemoteServer →
  ∃ v,
    UnsealConfig.Vault usc = Some v
    ∧ ToArgs tick usc vault
      = crossCutting (UnsealConfig.Options usc)
        ++ ["--mode"; "vault";
            "--vault-addr"; VaultUnsealConfig.Address v;
            "--vault-unseal-keys-path"; VaultUnsealConfig.UnsealKeysPath v]
        ++ from_option credentialArgs [] (chosenCredential v)
    ∧ (chosenCredential v = None ↔
         VaultUnsealConfig.Token v = "" ∧ VaultUnsealConfig.TokenPath v = ""
         ∧ VaultUnsealConfig.Role v = "").
Proof.
  intros Hsel.
  apply selected_remote in Hsel as (Hg & Haz & Hoci & Haws & Hal & [v Hv]).
  exists v. split; [done|]. split.
  - rewrite ToArgs_options. f_equal.
    unfold ToArgs, clearOptions, chosenCredential; simpl.
    rewrite Hg, Haz, Hoci, Haws, Hal, Hv.
    repeat case_decide; repeat case_bool_decide; done.
  - unfold chosenCredential.
    repeat case_bool_decide; split; try done; intros (? & ? & ?); congruence.
Qed.

(** The amended [C5] at a configuration that authenticates with a role. *)
Lemma ToArgs_remote_credential_witness :
  selected remoteWithRole = BRemoteServer
  ∧ ∃ v,
      UnsealConfig.Vault remoteWithRole = Some v
      ∧ @ToArgs ordered_iter 0 remoteWithRole vault0
        = crossCutting (UnsealConfig.Options remoteWithRole)
          ++ ["--mode"; "vault";
              "--vault-addr"; VaultUnsealConfig.Address v;
              "--vault-unseal-keys-path"; VaultUnsealConfig.UnsealKeysPath v]
          ++ from_option credentialArgs [] (chosenCredential v)
      ∧ (chosenCredential v = None ↔
           VaultUnsealConfig.Token v = "" ∧ VaultUnsealConfig.TokenPath v = ""
           ∧ VaultUnsealConfig.Role v = "").
Proof.
  split; [reflexivity|].
  apply (@ToArgs_remote_credential ordered_iter 0 remoteWithRole vault0).
  reflexivity.
Defined.

(** ** The label selector *)

Lemma foldl_snoc_fmap {A B} (f : A → B) (l : list A) (acc : list B) :
  foldl (λ acc a, acc ++ [f a]) acc l = acc ++ (f <$> l).
Proof.
  revert acc. induction l as [|a l IH]; intros acc; simpl.
  - by rewrite app_nil_r.
  - rewrite IH. by rewrite <- app_assoc.
Qed.

Lemma Strings_sorted (a : list string) : StronglySorted String.le (Strings a).
Proof. apply StronglySorted_merge_sort; apply _. Qed.

(** [sort.Strings] forgets the order of its input. *)
Lemma Strings_Permutation (a b : list string) :
  a ≡ₚ b → Strings a = Strings b.
Proof.
  intros Hab. apply (StronglySorted_unique String.le).
  - apply Strings_sorted.
  - apply Strings_sorted.
  - unfold Strings. by rewrite !merge_sort_Permutation.
Qed.

Lemma secretLabels_entries `{MapIter} tick labels :
  secretLabels tick labels = Join (Strings (labelEntries labels)) ",".
Proof.
  unfold secretLabels. rewrite foldl_snoc_fmap. simpl. f_equal.
  apply Strings_Permutation. unfold labelEntries.
  by rewrite range_perm.
Qed.

Lemma secretLabels_LabelsForVault `{MapIter} tick vault :
  secretLabels tick (LabelsForVault vault)
  = "app.kubernetes.io/name=vault,vault_cr=" +:+ Name vault.
Proof.
  rewrite secretLabels_entries.
  assert (Strings (labelEntries (LabelsForVault vault))
          = ["app.kubernetes.io/name=vault"; "vault_cr=" +:+ Name vault]) as ->;
    [|reflexivity].
  apply (StronglySorted_unique String.le).
  - apply Strings_sorted.
  - repeat constructor.
  - unfold Strings. rewrite merge_sort_Permutation.
    unfold labelEntries, LabelsForVault.
    rewrite map_to_list_insert by by_evaluation.
    rewrite map_to_list_singleton. reflexivity.
Qed.

(** [C6] Two invocations of [ToArgs] on the same configuration and
    resource return the same arguments whatever order the runtime walks
    the label map in, at either invocation: the label selector is the
    comma-joined list of the [key=value] entries sorted ascending, for any
    label map; for the labels of a resource it is
    [app.kubernetes.io/name=vault,vault_cr=<name>]; and in the [hsm-k8s]
    mode and in the default [k8s] mode the argument list ends with
    [--k8s-secret-labels] and that selector. *)
Theorem ToArgs_label_selector_deterministic
    (runtime1 runtime2 : MapIter) tick1 tick2 usc vault :
  @ToArgs runtime1 tick1 usc vault = @ToArgs runtime2 tick2 usc vault
  ∧ (∀ labels,
       @secretLabels runtime1 tick1 labels = @secretLabels runtime2 tick2 labels
       ∧ ∃ entries,
           @secretLabels runtime1 tick1 labels = Join entries ","
           ∧ StronglySorted String.le entries
           ∧ entries ≡ₚ labelEntries labels)
  ∧ @secretLabels runtime1 tick1 (LabelsForVault vault)
    = "app.kubernetes.io/name=vault,vault_cr=" +:+ Name vault
  ∧ if bool_decide (modeName usc (selected usc) ∈ ["hsm-k8s"; "k8s"])
    then ∃ front,
           @ToArgs runtime1 tick1 usc vault
           = front ++ ["--k8s-secret-labels";
                       @secretLabels runtime1 tick1 (LabelsForVault vault)]
    else True.
Proof.
  split; [|split; [|split]].
  - unfold ToArgs.
    by rewrite (@secretLabels_entries runtime1), (@secretLabels_entries runtime2).
  - intros labels. split.
    + by rewrite (@secretLabels_entries runtime1), (@secretLabels_entries runtime2).
    + exists (Strings (labelEntries labels)).
      split; [apply secretLabels_entries|].
      split; [apply Strings_sorted|apply merge_sort_Permutation].
  - apply secretLabels_LabelsForVault.
  - case_bool_decide as Hmode; [|done].
    change (["--k8s-secret-labels";
             @secretLabels runtime1 tick1 (LabelsForVault vault)]
            `suffix_of` @ToArgs runtime1 tick1 usc vault).
    rewrite (@ToArgs_options runtime1). apply suffix_app_r.
    destruct usc as [opts k8s [g|] [al|] [az|] [aws|] [oci|] [v|] [hsm|]];
      try (exfalso; revert Hmode; by_evaluation).
    + revert Hmode. unfold selected, modeName, ToArgs, clearOptions; simpl.
      destruct (decide (SecretNamespace k8s ≠ "" ∧ SecretName k8s ≠ ""))
        as [[Hns Hn]|Hk].
      * rewrite !bool_decide_eq_false_2 by done. simpl. intros _.
        repeat case_decide; try done; simpl;
          repeat first [reflexivity | apply suffix_cons_r].
      * assert (bool_decide (SecretNamespace k8s = "")
                || bool_decide (SecretName k8s = "") = true) as ->.
        { apply orb_true_iff. rewrite !bool_decide_eq_true.
          destruct (decide (SecretNamespace k8s = "")); [by left|].
          destruct (decide (SecretName k8s = "")); [by right|].
          destruct Hk; done. }
        intros Hmode. exfalso. revert Hmode. by_evaluation.
    + unfold ToArgs, clearOptions; simpl.
      repeat first [reflexivity | apply suffix_cons_r].
Qed.

(** ** Exactly one mode *)

(** [C10] The argument list is never empty and holds exactly one mode
    token pair, [--mode] followed by a mode name, whatever is
    configured: the cross-cutting flags, none of which is [--mode], come
    first, then [--mode] with the name of the selected variant, then the
    flag/value pairs of that variant, whose flags are neither [--mode]
    nor a mode name.  When none of the seven backends is set the default
    branch runs: the list is the cross-cutting flags, then [--mode k8s],
    the secret namespace (the resource's own unless overridden), the
    secret name ([<name>-unseal-keys] unless overridden) and the label
    selector. *)
Theorem ToArgs_exactly_one_mode `{MapIter} tick usc vault :
  ToArgs tick usc vault ≠ []
  ∧ modePairs (ToArgs tick usc vault) = 1
  ∧ (∃ rest,
       ToArgs tick usc vault
       = crossCutting (UnsealConfig.Options usc)
           ++ "--mode" :: modeName usc (selected usc) :: rest
       ∧ ("--mode" ∉ crossCutting (UnsealConfig.Options usc))
       ∧ (modeName usc (selected usc) ∈ modeNames)
       ∧ flagValuePairs backendFlag rest)
  ∧ ∀ opts k8s,
      selected (kubernetesOnly opts k8s) = BKubernetesSecret
      ∧ ToArgs tick (kubernetesOnly opts k8s) vault
        = crossCutting opts
          ++ ["--mode"; "k8s";
              "--k8s-secret-namespace";
              (if bool_decide (SecretNamespace k8s = "")
               then Namespace vault else SecretNamespace k8s);
              "--k8s-secret-name";
              (if bool_decide (SecretName k8s = "")
               then Name vault +:+ "-unseal-keys" else SecretName k8s);
              "--k8s-secret-labels";
              "app.kubernetes.io/name=vault,vault_cr=" +:+ Name vault].
Proof.
  split; [|split; [|split]].
  - destruct (ToArgs_shape tick usc vault) as (rest & -> & _).
    by destruct (crossCutting _).
  - apply ToArgs_modePairs.
  - destruct (ToArgs_shape tick usc vault) as (rest & Hargs & Hrest).
    exists rest. split; [done|]. split; [|split; [apply modeName_in|done]].
    + unfold crossCutting. rewrite !elem_of_app.
      assert (∀ n, "--mode" ∉ ["--secret-shares"; Sprint n]) as Hshares.
      { intros n. rewrite !not_elem_of_cons. split; [done|]. split; [|by inversion 1].
        unfold Sprint. by destruct (N.to_uint n). }
      assert (∀ n, "--mode" ∉ ["--secret-threshold"; Sprint n]) as Hthreshold.
      { intros n. rewrite !not_elem_of_cons. split; [done|]. split; [|by inversion 1].
        unfold Sprint. by destruct (N.to_uint n). }
      repeat case_bool_decide; repeat case_match;
        intros [Hin|[Hin|[Hin|Hin]]];
        try (by apply elem_of_nil in Hin);
        try (by apply (Hshares _) in Hin);
        try (by apply (Hthreshold _) in Hin);
        revert Hin; by_evaluation.
  - intros opts k8s. split; [reflexivity|].
    rewrite ToArgs_options. f_equal.
    unfold ToArgs, clearOptions, kubernetesOnly; simpl.
    rewrite secretLabels_LabelsForVault.
    repeat case_decide; repeat case_bool_decide; done.
Qed.

(** ** The HA verdict *)

Lemma MapKeys_singleton `{MapIter} {A} tick (k : string) (v : A) :
  MapKeys tick ({[k := v]} : gmap string A) = [k].
Proof.
  unfold MapKeys.
  pose proof (range_perm A tick {[k := v]}) as Hp.
  rewrite map_to_list_singleton in Hp.
  apply Permutation_singleton_r in Hp. by rewrite Hp.
Qed.

Lemma MapKeys_empty `{MapIter} {A} tick :
  MapKeys tick (∅ : gmap string A) = [].
Proof.
  unfold MapKeys.
  pose proof (range_perm A tick ∅) as Hp.
  rewrite map_to_list_empty in Hp.
  apply Permutation_nil_r in Hp. by rewrite Hp.
Qed.

Lemma index_singleton (k : string) (v : JSON) : index {[k := v]} k = v.
Proof. unfold index. by rewrite lookup_singleton_eq. Qed.

(** With a single key in the storage stanza every read of the storage
    type returns that key; with none it returns the empty string. *)
Lemma GetStorageType_singleton `{MapIter, Cast} tick spec k params :
  getStorage spec = {[k := params]} → GetStorageType tick spec = k.
Proof. intros Hs. unfold GetStorageType. by rewrite Hs, MapKeys_singleton. Qed.

Lemma GetStorageType_empty `{MapIter, Cast} tick spec :
  getStorage spec = ∅ → GetStorageType tick spec = "".
Proof. intros Hs. unfold GetStorageType. by rewrite Hs, MapKeys_empty. Qed.

(** The verdict in terms of the two reads of the storage type. *)
Lemma HasHAStorage_reads `{MapIter, Cast} tick spec :
  HasHAStorage tick spec = true ↔
    (is_Some (HAStorageTypes !! GetStorageType tick spec)
     ∧ (GetStorageType (S tick) spec = "consul"
        ∨ GetStorageType (S tick) spec = "raft"
        ∨ ToBool (index (ToStringMap (index (getStorage spec)
                                        (GetStorageType (S tick) spec)))
                        "ha_enabled") = true))
    ∨ getHAStorage spec ≠ ∅.
Proof.
  unfold HasHAStorage, HasStorageHAEnabled, hasHAStorageStanza. cbv zeta.
  rewrite <- (map_size_empty_iff (getHAStorage spec)).
  destruct (size (getHAStorage spec)) as [|n] eqn:Hsize; simpl.
  - case_bool_decide as Hin; simpl.
    + destruct (bool_decide _ || bool_decide _ || ToBool _) eqn:Hha.
      * rewrite !orb_true_iff, !bool_decide_eq_true in Hha.
        split; [intros _; left; tauto | done].
      * rewrite !orb_false_iff, !bool_decide_eq_false in Hha.
        destruct Hha as [[? ?] Hb].
        split; [done|]. intros [[_ [?|[?|?]]]|?]; congruence.
    + split; [done|]. intros [[? _]|?]; done.
  - split; [intros _; right; lia|].
    intros _. by repeat case_match.
Qed.

(** The accessors read the document. *)
Lemma GetVaultConfig_document spec :
  GetVaultConfig spec = document (VaultSpec.Config spec).
Proof.
  unfold GetVaultConfig, document.
  destruct (VaultSpec.Config spec) as [|[]|[]]; simpl; try done;
    apply (right_id_L ∅ (∪)).
Qed.

Lemma getStorage_stanza `{Cast} spec :
  getStorage spec = stanza (document (VaultSpec.Config spec)) "storage".
Proof.
  unfold getStorage, stanza, ToStringMap, index.
  rewrite GetVaultConfig_document.
  by destruct (document (VaultSpec.Config spec) !! "storage") as [[]|].
Qed.

Lemma getHAStorage_stanza `{Cast} spec :
  getHAStorage spec = stanza (document (VaultSpec.Config spec)) "ha_storage".
Proof.
  unfold getHAStorage, stanza, ToStringMap, index.
  rewrite GetVaultConfig_document.
  by destruct (document (VaultSpec.Config spec) !! "ha_storage") as [[]|].
Qed.

Lemma GetStorageType_backendType `{MapIter, Cast} tick spec :
  GetStorageType tick spec = backendType tick (getStorage spec).
Proof.
  unfold GetStorageType, backendType.
  by destruct (MapKeys tick (getStorage spec)).
Qed.

Lemma HAStorageTypes_names k :
  is_Some (HAStorageTypes !! k) ↔ k ∈ haStorageTypeNames.
Proof.
  unfold HAStorageTypes. rewrite <- not_eq_None_Some.
  rewrite <- not_elem_of_list_to_map. simpl.
  unfold haStorageTypeNames.
  destruct (decide (k ∈ ["consul"; "dynamodb"; "etcd"; "gcs"; "mysql";
                          "postgresql"; "raft"; "oci"; "spanner"; "zookeeper"]));
    tauto.
Qed.

(** [C2] For every configuration document the HA verdict is true exactly
    when (a) the backend type of the document's [storage] stanza is in the
    table of HA storage types and the parameters of that backend assert
    [ha_enabled], the types [consul] and [raft] counting as HA whatever
    the flag, or (b) the document's [ha_storage] stanza is not empty,
    whatever its backend type.  The stanzas are those of the document: the
    accessors return the entries found under its [storage] and
    [ha_storage] keys, and the storage type is the key of the former.  The
    code reads the storage type twice; with the expected single key in the
    storage stanza both reads return that key, and with no key the empty
    string, which is not in the table.  For the storage stanza
    [{"raft": {}}] the verdict is true and the storage type is [raft]. *)
Theorem HasHAStorage_verdict `{MapIter, Cast} tick spec :
  let doc := document (VaultSpec.Config spec) in
  let storage := stanza doc "storage" in
  let haStorage := stanza doc "ha_storage" in
  (getStorage spec = storage
   ∧ getHAStorage spec = haStorage
   ∧ ∀ tick', GetStorageType tick' spec = backendType tick' storage)
  ∧ (HasHAStorage tick spec = true ↔
       (backendType tick storage ∈ haStorageTypeNames
        ∧ (backendType (S tick) storage = "consul"
           ∨ backendType (S tick) storage = "raft"
           ∨ assertsHA (index storage (backendType (S tick) storage))))
       ∨ haStorage ≠ ∅)
  ∧ (∀ k params,
       storage = {[k := params]} →
       (∀ tick', GetStorageType tick' spec = k)
       ∧ (HasHAStorage tick spec = true ↔
            (k ∈ haStorageTypeNames
             ∧ (assertsHA params ∨ k = "consul" ∨ k = "raft"))
            ∨ haStorage ≠ ∅))
  ∧ (storage = ∅ →
       (∀ tick', GetStorageType tick' spec = "")
       ∧ (HasHAStorage tick spec = true ↔ haStorage ≠ ∅))
  ∧ (VaultSpec.Config spec
       = RawValue (JObject {["storage" := JObject {["raft" := JObject ∅]}]}) →
     HasHAStorage tick spec = true ∧ GetStorageType tick spec = "raft").
Proof.
  intros doc storage haStorage.
  pose proof (getStorage_stanza spec) as Hs.
  pose proof (getHAStorage_stanza spec) as Hha.
  fold doc in Hs, Hha. fold storage in Hs. fold haStorage in Hha.
  assert (∀ tick', GetStorageType tick' spec = backendType tick' storage)
    as Htype.
  { intros tick'. by rewrite GetStorageType_backendType, Hs. }
  split; [done|]. split; [|split; [|split]].
  - rewrite HasHAStorage_reads, HAStorageTypes_names, !Htype, Hs, Hha.
    unfold assertsHA. tauto.
  - intros k params Hk. rewrite <- Hs in Hk.
    split; [intros tick'; by apply (GetStorageType_singleton _ _ _ params)|].
    rewrite HasHAStorage_reads, HAStorageTypes_names.
    rewrite !(GetStorageType_singleton _ _ k params) by done.
    rewrite Hk, index_singleton, Hha. unfold assertsHA. tauto.
  - intros Hempty. rewrite <- Hs in Hempty.
    split; [intros tick'; by apply GetStorageType_empty|].
    rewrite HasHAStorage_reads, HAStorageTypes_names.
    rewrite !GetStorageType_empty by done. rewrite Hha.
    assert ("" ∉ haStorageTypeNames) by by_evaluation.
    tauto.
  - intros Hcfg.
    assert (getStorage spec = {["raft" := JObject ∅]}) as Hraft.
    { rewrite Hs. unfold storage, doc. rewrite Hcfg. reflexivity. }
    split; [|by apply (GetStorageType_singleton _ _ _ (JObject ∅))].
    apply HasHAStorage_reads. left.
    rewrite !(GetStorageType_singleton _ _ "raft" (JObject ∅)) by done.
    split; [by_evaluation|tauto].
Qed.

(** The scenario evaluated, under a runtime that reverses every other
    map walk. *)
Example HasHAStorage_raft :
  @HasHAStorage zigzag_iter cast_plain 0 raftSpec = true
  ∧ @GetStorageType zigzag_iter cast_plain 1 raftSpec = "raft".
Proof. split; vm_compute; reflexivity. Qed.

(** ** Merging the service-registration stanza *)

Lemma Src_nested_ind (P : Src → Prop) :
  (∀ s, P (SrcString s)) →
  (∀ entries, Forall (λ kv, P kv.2) entries → P (SrcMap entries)) →
  ∀ src, P src.
Proof.
  intros Hs Hm. fix IH 1. intros [s|entries]; [apply Hs|].
  apply Hm. induction entries as [|[k e] rest IHrest]; constructor; auto.
Qed.

Lemma deepMergeElem_map dm entries :
  deepMergeElem (Some (JObject dm)) (SrcMap entries)
  = if isEmptyValue (JObject (deepMerge dm entries))
    then toJSON (SrcMap entries) else JObject (deepMerge dm entries).
Proof.
  cbn [deepMergeElem].
  match goal with
  | |- (if isEmptyValue (JObject (?loop entries dm)) then _ else _) = _ =>
      assert (∀ es m, loop es m = deepMerge m es) as Hloop
  end.
  { induction es as [|[k e] rest IHes]; intros m; [done|].
    unfold deepMerge. simpl. apply IHes. }
  by rewrite Hloop.
Qed.

Lemma kept_refl v : kept v v.
Proof. destruct v; simpl; eauto. Qed.

Lemma preserves_refl v : preserves v v.
Proof. intros path x Hx. exists x. split; [done|]. intros _. apply kept_refl. Qed.

Lemma lookupPath_empty k path d :
  isEmptyValue d = true → lookupPath (k :: path) d = None.
Proof.
  destruct d as [| | | | |m]; simpl; try done.
  intros Hm%Nat.eqb_eq%map_size_empty_iff. by rewrite Hm, lookup_empty.
Qed.

(** An empty value has no keys to lose. *)
Lemma preserves_empty d v' : isEmptyValue d = true → preserves d v'.
Proof.
  intros Hd [|k path] x Hx.
  - simpl in Hx. injection Hx as <-. exists v'. split; [done|]. congruence.
  - by rewrite lookupPath_empty in Hx.
Qed.

Lemma kept_nonempty x x' :
  isEmptyValue x = false → kept x x' → isEmptyValue x' = false.
Proof.
  destruct x as [| | | | |m]; simpl; try (intros ? ->; done).
  intros Hm (m' & -> & Hdom). simpl.
  apply Nat.eqb_neq in Hm. apply Nat.eqb_neq. intros Hm'.
  apply map_size_empty_iff in Hm'. subst m'.
  rewrite dom_empty_L in Hdom.
  apply Hm, map_size_empty_iff, dom_empty_iff_L. set_solver.
Qed.

Lemma kept_trans x x' x'' :
  isEmptyValue x = false → kept x x' → kept x' x'' → kept x x''.
Proof.
  destruct x as [| | | | |m]; simpl; try (intros ? ->; done).
  intros _ (m' & -> & Hdom) (m'' & -> & Hdom'). simpl.
  exists m''. split; [done|]. set_solver.
Qed.

Lemma preserves_trans a b c : preserves a b → preserves b c → preserves a c.
Proof.
  intros Hab Hbc path x Hx.
  destruct (Hab path x Hx) as (x' & Hx' & Hk).
  destruct (Hbc path x' Hx') as (x'' & Hx'' & Hk').
  exists x''. split; [done|]. intros Hne.
  pose proof (kept_nonempty _ _ Hne (Hk Hne)).
  eapply kept_trans; eauto.
Qed.

(** One round of the loop keeps the destination map. *)
Lemma preserves_insert dm k e :
  (∀ d, preserves d (deepMergeElem (Some d) e)) →
  preserves (JObject dm) (JObject (<[k := deepMergeElem (dm !! k) e]> dm)).
Proof.
  intros He [|k' path] x Hx; simpl in Hx.
  - injection Hx as <-. eexists. split; [reflexivity|]. intros _. simpl.
    eexists. split; [reflexivity|]. rewrite dom_insert_L. set_solver.
  - destruct (dm !! k') as [d|] eqn:Hd; simpl in Hx; [|done].
    destruct (decide (k = k')) as [->|Hne].
    + rewrite Hd. simpl. rewrite lookup_insert_eq. simpl.
      by apply He.
    + simpl. rewrite lookup_insert_ne by done. rewrite Hd. simpl.
      exists x. split; [done|]. intros _. apply kept_refl.
Qed.

Lemma preserves_deepMerge dm entries :
  Forall (λ kv, ∀ d, preserves d (deepMergeElem (Some d) kv.2)) entries →
  preserves (JObject dm) (JObject (deepMerge dm entries)).
Proof.
  intros Hall. revert dm.
  induction Hall as [|[k e] rest He _ IH]; intros dm; [apply preserves_refl|].
  unfold deepMerge. simpl. eapply preserves_trans; [|apply IH].
  by apply preserves_insert.
Qed.

(** mergo never removes a key of the destination and never overwrites a
    non-empty value. *)
Lemma preserves_deepMergeElem src d :
  preserves d (deepMergeElem (Some d) src).
Proof.
  revert d. induction src as [s|entries IH] using Src_nested_ind; intros d.
  - simpl. destruct (isEmptyValue d) eqn:Hd;
      [by apply preserves_empty|apply preserves_refl].
  - assert (∀ d', (∀ dm, d' ≠ JObject dm) →
              preserves d' (if isEmptyValue d' then toJSON (SrcMap entries) else d'))
      as Hscalar.
    { intros d' _. destruct (isEmptyValue d') eqn:Hd;
        [by apply preserves_empty|apply preserves_refl]. }
    destruct d as [|b|q|s|l|dm];
      [by apply (Hscalar JNull)|by apply (Hscalar (JBool b))
      |by apply (Hscalar (JNumber q))|by apply (Hscalar (JString s))
      |by apply (Hscalar (JArray l))|].
    rewrite deepMergeElem_map.
    pose proof (preserves_deepMerge dm entries IH) as Hp.
    destruct (isEmptyValue (JObject (deepMerge dm entries))) eqn:Hd; [|done].
    apply preserves_empty.
    destruct (isEmptyValue (JObject dm)) eqn:Hdm; [done|].
    destruct (Hp [] (JObject dm) eq_refl) as (x' & Hx' & Hk).
    injection Hx' as <-.
    pose proof (kept_nonempty _ _ Hdm (Hk Hdm)). congruence.
Qed.

Lemma lookupPath_toJSON_chain path leaf :
  lookupPath path (toJSON (chain path leaf)) = Some (JString leaf).
Proof.
  induction path as [|k path IH]; [done|].
  simpl. rewrite lookup_insert_eq. simpl. apply IH.
Qed.

Lemma isEmptyValue_insert k v (m : gmap string JSON) :
  isEmptyValue (JObject (<[k := v]> m)) = false.
Proof.
  simpl. apply Nat.eqb_neq. intros Hs%map_size_empty_iff.
  by apply insert_non_empty in Hs.
Qed.

(** Where the path is free, the leaf of the fragment ends up in the
    destination. *)
Lemma deepMergeElem_chain path leaf de :
  fillable path de = true →
  lookupPath path (deepMergeElem de (chain path leaf)) = Some (JString leaf).
Proof.
  revert de. induction path as [|k path IH]; intros de Hfill.
  - destruct de as [d|]; simpl in *; [|done].
    rewrite orb_false_r in Hfill. by rewrite Hfill.
  - assert (∀ m, fillable path (m !! k) = true →
              lookupPath (k :: path)
                (deepMergeElem (Some (JObject m)) (chain (k :: path) leaf))
              = Some (JString leaf)) as Hobj.
    { intros m Hm. cbn [chain]. rewrite deepMergeElem_map.
      unfold deepMerge. cbn [foldl fst snd].
      rewrite isEmptyValue_insert. cbn [lookupPath].
      rewrite lookup_insert_eq. simpl. by apply IH. }
    destruct de as [d|]; [|exact (lookupPath_toJSON_chain (k :: path) leaf)].
    cbn [fillable] in Hfill.
    destruct d as [|b|q|s|l|m];
      try (rewrite orb_false_r in Hfill;
           cbn [chain deepMergeElem]; rewrite Hfill;
           exact (lookupPath_toJSON_chain (k :: path) leaf)).
    apply Hobj. apply orb_true_iff in Hfill as [Hempty|Hsub]; [|done].
    simpl in Hempty. apply Nat.eqb_eq, map_size_empty_iff in Hempty.
    rewrite Hempty, lookup_empty. by destruct path.
Qed.

(** Where the path is not free, the fragment changes nothing. *)
Lemma deepMergeElem_blocked path leaf d :
  fillable path (Some d) = false →
  deepMergeElem (Some d) (chain path leaf) = d.
Proof.
  revert d. induction path as [|k path IH]; intros d Hf;
    cbn [fillable] in Hf; apply orb_false_iff in Hf as [Hne Hsub].
  - cbn [chain deepMergeElem]. by rewrite Hne.
  - destruct d as [|b|q|s|l|m];
      try (cbn [chain deepMergeElem]; by rewrite Hne).
    cbn [chain]. rewrite deepMergeElem_map. unfold deepMerge.
    cbn [foldl fst snd].
    destruct (m !! k) as [x|] eqn:Hx; [|by destruct path].
    rewrite (IH x Hsub), insert_id by done. by rewrite Hne.
Qed.

Lemma deepMergeElem_None src : deepMergeElem None src = toJSON src.
Proof. by destruct src. Qed.

Lemma lookupPath_chain_frame path leaf p :
  ¬ p `prefix_of` path → lookupPath p (toJSON (chain path leaf)) = None.
Proof.
  revert p. induction path as [|k path IH]; intros [|k' p] Hp;
    try (by destruct Hp; apply prefix_nil); [done|].
  cbn [chain toJSON lookupPath].
  destruct (decide (k = k')) as [<-|Hk].
  - rewrite lookup_insert_eq. simpl. apply IH.
    intros Hsub. apply Hp. by apply prefix_cons.
  - by rewrite lookup_insert_ne, lookup_empty.
Qed.

(** Off the path of the fragment nothing changes. *)
Lemma deepMergeElem_frame path leaf de p :
  ¬ p `prefix_of` path →
  lookupPath p (deepMergeElem de (chain path leaf)) = de ≫= lookupPath p.
Proof.
  revert de p. induction path as [|k path IH]; intros de [|k' p] Hp;
    try (by destruct Hp; apply prefix_nil).
  - cbn [chain deepMergeElem].
    destruct de as [d|]; [|done].
    destruct (isEmptyValue d) eqn:He; [|done].
    simpl. symmetry. by apply lookupPath_empty.
  - destruct de as [d|];
      [|rewrite deepMergeElem_None; by apply lookupPath_chain_frame].
    destruct d as [|b|q|s|l|m];
      try (match goal with
           | |- context [deepMergeElem (Some ?d) _] =>
               change (deepMergeElem (Some d) (chain (k :: path) leaf))
                 with (if isEmptyValue d
                       then toJSON (chain (k :: path) leaf) else d);
               destruct (isEmptyValue d) eqn:He; [|done]
           end;
           rewrite lookupPath_chain_frame by done;
           symmetry; by apply lookupPath_empty).
    cbn [chain]. rewrite deepMergeElem_map. unfold deepMerge.
    cbn [foldl fst snd]. rewrite isEmptyValue_insert. simpl.
    destruct (decide (k = k')) as [<-|Hk].
    + rewrite lookup_insert_eq. simpl. apply IH.
      intros Hsub. apply Hp. by apply prefix_cons.
    + by rewrite lookup_insert_ne.
Qed.

Lemma ConfigJSON_object `{MapIter, Cast} tick vault doc :
  VaultSpec.Config (Spec vault) = RawValue (JObject doc) →
  ConfigJSON tick vault
  = if VaultSpec.ServiceRegistrationEnabled (Spec vault)
       && HasHAStorage tick (Spec vault)
    then inr (JObject (<["service_registration" :=
                deepMergeElem (doc !! "service_registration")
                  (chain ["kubernetes"; "namespace"] (Namespace vault))]> doc))
    else inr (JObject doc).
Proof.
  intros Hcfg. unfold ConfigJSON. rewrite Hcfg. cbn [Unmarshal default from_option id].
  rewrite (right_id_L ∅ (∪)). by destruct (_ && _).
Qed.

(** [C4], amended: a document that decodes to an object passes through
    unchanged unless service registration is enabled and HA storage is
    active.  In that case the fragment
    [service_registration.kubernetes.namespace] is deep-merged into it: no
    key of the document is removed at any depth, no key that holds a
    non-empty value is overwritten (an object keeps its keys, anything
    else its value), keys other than [service_registration] are untouched,
    and the namespace is set wherever the path is free.  Nothing changes
    off the path of the fragment, empty values included: whatever is found
    in the document by a path that does not lead to the namespace is found
    unchanged afterwards.  A conflicting non-empty value on the path is a
    silent no-op and leaves the whole document as it is; a key on the path
    that holds an empty value (null, false, 0, an empty string, array or
    object) counts as unset and is filled. *)
Theorem ConfigJSON_service_registration `{MapIter, Cast} tick vault doc :
  VaultSpec.Config (Spec vault) = RawValue (JObject doc) →
  if VaultSpec.ServiceRegistrationEnabled (Spec vault)
     && HasHAStorage tick (Spec vault)
  then
    ∃ doc',
      ConfigJSON tick vault = inr (JObject doc')
      ∧ preserves (JObject doc) (JObject doc')
      ∧ (∀ k, k ≠ "service_registration" → doc' !! k = doc !! k)
      ∧ (fillable ["kubernetes"; "namespace"] (doc !! "service_registration")
         = true →
         lookupPath namespacePath (JObject doc')
         = Some (JString (Namespace vault)))
      ∧ (∀ path,
           ¬ path `prefix_of` namespacePath →
           lookupPath path (JObject doc') = lookupPath path (JObject doc))
      ∧ (fillable ["kubernetes"; "namespace"] (doc !! "service_registration")
         = false →
         doc' = doc)
  else ConfigJSON tick vault = inr (JObject doc).
Proof.
  intros Hcfg. rewrite (ConfigJSON_object tick vault doc Hcfg).
  destruct (_ && _); [|done].
  eexists. split; [reflexivity|]. split; [|split; [|split; [|split]]].
  - apply preserves_insert, preserves_deepMergeElem.
  - intros k Hk. by rewrite lookup_insert_ne.
  - intros Hfill. unfold namespacePath. cbn [lookupPath].
    rewrite lookup_insert_eq. simpl mbind.
    by apply (deepMergeElem_chain ["kubernetes"; "namespace"]).
  - intros path Hpath.
    assert (deepMergeElem (Some (JObject doc))
              (chain namespacePath (Namespace vault))
            = JObject (<["service_registration" :=
                deepMergeElem (doc !! "service_registration")
                  (chain ["kubernetes"; "namespace"] (Namespace vault))]> doc))
      as <-.
    { unfold namespacePath. cbn [chain]. rewrite deepMergeElem_map.
      unfold deepMerge. cbn [foldl fst snd]. by rewrite isEmptyValue_insert. }
    by rewrite deepMergeElem_frame.
  - intros Hblocked.
    destruct (doc !! "service_registration") as [d|] eqn:Hd; [|done].
    rewrite deepMergeElem_blocked by done. by rewrite insert_id.
Qed.

(** [C4], as stated, fails: a key that the user document defines with an
    empty value is overwritten.  The user's empty [namespace] is replaced
    by the resource's namespace, and a [service_registration] set to
    [false] is replaced by the whole fragment. *)
Lemma ConfigJSON_overwrites_empty_values :
  let user :=
    JObject {["kubernetes" := JObject {["namespace" := JString ""]}]} in
  (lookupPath ["kubernetes"; "namespace"] user = Some (JString "")
   ∧ ∃ doc',
       @ConfigJSON ordered_iter cast_plain 0 (registeredVault user) = inr doc'
       ∧ lookupPath namespacePath doc' = Some (JString "vault-system"))
  ∧ ∃ doc',
      @ConfigJSON ordered_iter cast_plain 0 (registeredVault (JBool false))
      = inr doc'
      ∧ lookupPath ["service_registration"] doc'
        = Some (JObject {["kubernetes" :=
                  JObject {["namespace" := JString "vault-system"]}]}).
Proof.
  split; [split; [reflexivity|]|]; eexists; split;
    try (vm_compute; reflexivity).
Qed.

(** The amended [C4] at a raft resource whose document registers with
    Consul: the fragment is merged next to the user's stanza. *)
Lemma ConfigJSON_service_registration_witness :
  let doc : gmap string JSON :=
    {[ "storage" := JObject {["raft" := JObject ∅]};
       "service_registration" := JObject {["consul" := JObject ∅]} ]} in
  let vault := registeredVault (JObject {["consul" := JObject ∅]}) in
  VaultSpec.Config (Spec vault) = RawValue (JObject doc)
  ∧ if VaultSpec.ServiceRegistrationEnabled (Spec vault)
       && @HasHAStorage ordered_iter cast_plain 0 (Spec vault)
    then
      ∃ doc',
        @ConfigJSON ordered_iter cast_plain 0 vault = inr (JObject doc')
        ∧ preserves (JObject doc) (JObject doc')
        ∧ (∀ k, k ≠ "service_registration" → doc' !! k = doc !! k)
        ∧ (fillable ["kubernetes"; "namespace"] (doc !! "service_registration")
           = true →
           lookupPath namespacePath (JObject doc')
           = Some (JString (Namespace vault)))
        ∧ (∀ path,
             ¬ path `prefix_of` namespacePath →
             lookupPath path (JObject doc') = lookupPath path (JObject doc))
        ∧ (fillable ["kubernetes"; "namespace"] (doc !! "service_registration")
           = false →
           doc' = doc)
    else @ConfigJSON ordered_iter cast_plain 0 vault = inr (JObject doc).
Proof.
  split; [reflexivity|].
  apply (@ConfigJSON_service_registration ordered_iter cast_plain). reflexivity.
Defined.

(** ** The version of the image *)

(** [C7] [GetVersion] fails with the wrapped parse error when the image
    reference cannot be parsed, fails with the missing-tag error when the
    parsed reference has no tag (a digest-only reference, bare or with a
    name, among them), and otherwise returns what [semver.NewVersion]
    makes of the tag, its error included.  Given how the two packages read
    the three example strings, [repo/image:1.2.3] yields version 1.2.3,
    [repo/image] the missing-tag error and [repo/image:latest] a version
    parse error. *)
Theorem GetVersion_contract `{VersionParsers} :
  (∃ name, ParseAnyReference "repo/image:1.2.3"
           = inr (reference.taggedReference name "1.2.3")) →
  (∃ name, ParseAnyReference "repo/image" = inr (reference.repository name)) →
  (∃ name, ParseAnyReference "repo/image:latest"
           = inr (reference.taggedReference name "latest")) →
  (∃ v, NewVersion "1.2.3" = inr v
        ∧ (semver.major v, semver.minor v, semver.patch v) = (1, 2, 3)%N) →
  (∃ err, NewVersion "latest" = inl err) →
  (∀ spec,
     match ParseAnyReference (VaultSpec.Image spec) with
     | inl err => GetVersion spec = inl (InvalidReference err)
     | inr (reference.digestReference _)
     | inr (reference.repository _)
     | inr (reference.canonicalReference _ _) =>
         GetVersion spec = inl MissingTag
     | inr (reference.taggedReference _ tag)
     | inr (reference.reference _ tag _) =>
         match NewVersion tag with
         | inl err => GetVersion spec = inl (InvalidVersion err)
         | inr version => GetVersion spec = inr version
         end
     end)
  ∧ (∃ v, GetVersion (withImage "repo/image:1.2.3") = inr v
          ∧ (semver.major v, semver.minor v, semver.patch v) = (1, 2, 3)%N)
  ∧ GetVersion (withImage "repo/image") = inl MissingTag
  ∧ (∃ err, GetVersion (withImage "repo/image:latest")
            = inl (InvalidVersion err)).
Proof.
  intros [n1 H1] [n2 H2] [n3 H3] (v & Hv & Hnum) [err Herr].
  split; [|split; [|split]].
  - intros spec. unfold GetVersion.
    destruct (ParseAnyReference (VaultSpec.Image spec))
      as [e|[d|n|n t|n d|n t d]]; simpl;
      try reflexivity; destruct (NewVersion t); reflexivity.
  - exists v. unfold GetVersion. simpl. by rewrite H1; simpl; rewrite Hv.
  - unfold GetVersion. simpl. by rewrite H2.
  - exists err. unfold GetVersion. simpl. by rewrite H3; simpl; rewrite Herr.
Qed.

(** [C7] on the parser pair above: it reads the three example strings as
    assumed. *)
Lemma GetVersion_contract_witness :
  ((∃ name, Parsers.parseAnyReference "repo/image:1.2.3"
            = inr (reference.taggedReference name "1.2.3"))
   ∧ (∃ name, Parsers.parseAnyReference "repo/image"
              = inr (reference.repository name))
   ∧ (∃ name, Parsers.parseAnyReference "repo/image:latest"
              = inr (reference.taggedReference name "latest"))
   ∧ (∃ v, Parsers.newVersion "1.2.3" = inr v
           ∧ (semver.major v, semver.minor v, semver.patch v) = (1, 2, 3)%N)
   ∧ (∃ err, Parsers.newVersion "latest" = inl err))
  ∧ (∃ v, @GetVersion Parsers.parsers (withImage "repo/image:1.2.3") = inr v
          ∧ (semver.major v, semver.minor v, semver.patch v) = (1, 2, 3)%N)
  ∧ @GetVersion Parsers.parsers (withImage "repo/image") = inl MissingTag
  ∧ (∃ err, @GetVersion Parsers.parsers (withImage "repo/image:latest")
            = inl (InvalidVersion err)).
Proof.
  assert (∃ name, Parsers.parseAnyReference "repo/image:1.2.3"
                  = inr (reference.taggedReference name "1.2.3")) as H1
    by (eexists; vm_compute; reflexivity).
  assert (∃ name, Parsers.parseAnyReference "repo/image"
                  = inr (reference.repository name)) as H2
    by (eexists; vm_compute; reflexivity).
  assert (∃ name, Parsers.parseAnyReference "repo/image:latest"
                  = inr (reference.taggedReference name "latest")) as H3
    by (eexists; vm_compute; reflexivity).
  assert (∃ v, Parsers.newVersion "1.2.3" = inr v
               ∧ (semver.major v, semver.minor v, semver.patch v) = (1, 2, 3)%N)
    as H4 by (eexists; split; vm_compute; reflexivity).
  assert (∃ err, Parsers.newVersion "latest" = inl err) as H5
    by (eexists; vm_compute; reflexivity).
  split; [by repeat split|].
  apply (@GetVersion_contract Parsers.parsers H1 H2 H3 H4 H5).
Defined.

(** ** The TLS expiry threshold *)

(** [C8] The threshold is the parsed duration when the field parses, and
    the default of 168 hours both when the field is empty and when it does
    not parse; a parse failure is logged, with the error and the offending
    value, and not returned, so the method always yields a duration.
    This holds whatever grammar [time.ParseDuration] implements. *)
Theorem GetTLSExpiryThreshold_fallback `{DurationParser} spec :
  (Hour * 168 = 604800 * 1000000000)%Z
  ∧ match VaultSpec.TLSExpiryThreshold spec with
    | EmptyString => GetTLSExpiryThreshold spec = ((Hour * 168)%Z, [])
    | threshold =>
        match ParseDuration threshold with
        | inr duration => GetTLSExpiryThreshold spec = (duration, [])
        | inl err =>
            GetTLSExpiryThreshold spec
            = ((Hour * 168)%Z,
               [{| log_err := err;
                   log_msg := "using default threshold due to parse error";
                   log_keysAndValues := ["tlsExpiryThreshold"; threshold] |}])
        end
    end
  ∧ @GetTLSExpiryThreshold hoursOnly (withThreshold "72h") = ((72 * Hour)%Z, [])
  ∧ fst (@GetTLSExpiryThreshold hoursOnly (withThreshold "next week"))
    = (168 * Hour)%Z.
Proof.
  split; [reflexivity|]. split; [|split; reflexivity].
  unfold GetTLSExpiryThreshold.
  destruct (VaultSpec.TLSExpiryThreshold spec) as [|c s]; [reflexivity|].
  rewrite bool_decide_eq_false_2 by done.
  by destruct (ParseDuration _).
Qed.

(** ** Ingress defaulting *)

(** [C9] With an ingress declared, [GetIngress] returns it and leaves it
    in the resource, with: the service of the resource on port 8200 as
    default backend when there are no rules and no default backend, the
    declared backend otherwise; rules and class untouched; and, unless TLS
    is disabled, the three backend-protocol annotations set to [HTTPS],
    [https] and [true] next to the user's other annotations, which are
    kept.  With TLS disabled the annotations are the user's. *)
Theorem GetIngress_defaults `{Cast} vault ingress :
  VaultSpec.Ingress (Spec vault) = Some ingress →
  ∃ ingress' annotations',
    (GetIngress vault).1 = Some ingress'
    ∧ VaultSpec.Ingress (Spec (GetIngress vault).2) = Some ingress'
    ∧ netv1.DefaultBackend (Ingress.Spec ingress')
      = match netv1.Rules (Ingress.Spec ingress),
              netv1.DefaultBackend (Ingress.Spec ingress) with
        | [], None => Some (vaultBackend vault)
        | _, declared => declared
        end
    ∧ netv1.Rules (Ingress.Spec ingress') = netv1.Rules (Ingress.Spec ingress)
    ∧ netv1.IngressClassName (Ingress.Spec ingress')
      = netv1.IngressClassName (Ingress.Spec ingress)
    ∧ Ingress.Annotations ingress' = Some annotations'
    ∧ if IsTLSDisabled (Spec vault)
      then annotations' = default ∅ (Ingress.Annotations ingress)
      else
        (∀ k v, (k, v) ∈ tlsAnnotations → annotations' !! k = Some v)
        ∧ (∀ k, k ∉ tlsAnnotations.*1 →
             annotations' !! k = default ∅ (Ingress.Annotations ingress) !! k).
Proof.
  intros Hing. unfold GetIngress. rewrite Hing. cbv zeta.
  destruct ingress as [annotations [cls backend rules]].
  cbn [fst snd Spec VaultSpec.Ingress Ingress.Spec Ingress.Annotations
       netv1.Rules netv1.DefaultBackend netv1.IngressClassName].
  eexists _, _.
  split; [reflexivity|]. split; [reflexivity|].
  split; [by destruct rules, backend|].
  split; [by destruct rules, backend|].
  split; [by destruct rules, backend|].
  split; [reflexivity|].
  destruct (IsTLSDisabled (Spec vault)); simpl.
  - by destruct annotations.
  - split.
    + intros k v Hkv. unfold tlsAnnotations in Hkv.
      rewrite !elem_of_cons, elem_of_nil in Hkv.
      destruct Hkv as [[= -> ->]|[[= -> ->]|[[= -> ->]|[]]]];
        by simplify_map_eq.
    + intros k Hk. unfold tlsAnnotations in Hk. simpl in Hk.
      rewrite !not_elem_of_cons in Hk. destruct Hk as (? & ? & ? & _).
      rewrite !lookup_insert_ne by done.
      by destruct annotations.
Qed.

(** [C9] at an ingress with one annotation of the user's and nothing
    else declared. *)
Lemma GetIngress_defaults_witness :
  VaultSpec.Ingress (Spec ingressVault) = Some userIngress
  ∧ ∃ ingress' annotations',
      (@GetIngress cast_plain ingressVault).1 = Some ingress'
      ∧ VaultSpec.Ingress (Spec (@GetIngress cast_plain ingressVault).2)
        = Some ingress'
      ∧ netv1.DefaultBackend (Ingress.Spec ingress')
        = match netv1.Rules (Ingress.Spec userIngress),
                netv1.DefaultBackend (Ingress.Spec userIngress) with
          | [], None => Some (vaultBackend ingressVault)
          | _, declared => declared
          end
      ∧ netv1.Rules (Ingress.Spec ingress')
        = netv1.Rules (Ingress.Spec userIngress)
      ∧ netv1.IngressClassName (Ingress.Spec ingress')
        = netv1.IngressClassName (Ingress.Spec userIngress)
      ∧ Ingress.Annotations ingress' = Some annotations'
      ∧ if @IsTLSDisabled cast_plain (Spec ingressVault)
        then annotations' = default ∅ (Ingress.Annotations userIngress)
        else
          (∀ k v, (k, v) ∈ tlsAnnotations → annotations' !! k = Some v)
          ∧ (∀ k, k ∉ tlsAnnotations.*1 →
               annotations' !! k
               = default ∅ (Ingress.Annotations userIngress) !! k).
Proof.
  split; [reflexivity|].
  apply (@GetIngress_defaults cast_plain ingressVault userIngress).
  reflexivity.
Defined.

(** The same resource, evaluated. *)
Example GetIngress_evaluated :
  (@GetIngress cast_plain ingressVault).1
  = Some {| Ingress.Annotations :=
              Some (list_to_map
                (("kubernetes.io/ingress.class", "nginx") :: tlsAnnotations));
            Ingress.Spec := {| netv1.IngressClassName := None;
                               netv1.DefaultBackend :=
                                 Some (vaultBackend ingressVault);
                               netv1.Rules := [] |} |}.
Proof. vm_compute. reflexivity. Qed.

(** ** Further properties of the argument synthesizer *)

(** [X1] First match wins: the arguments are those of the configuration in
    which every backend but the selected one is left out, so the
    parameters of a lower-priority backend never show. *)
Theorem ToArgs_ignores_unselected `{MapIter} tick usc vault :
  selected (onlySelected usc) = selected usc
  ∧ ToArgs tick usc vault = ToArgs tick (onlySelected usc) vault.
Proof.
  destruct usc as [opts k8s [g|] [al|] [az|] [aws|] [oci|] [v|] [hsm|]];
    split; reflexivity.
Qed.

(** [X2] Outside the [hsm-k8s] and [k8s] modes the arguments depend
    neither on the Kubernetes secret settings, nor on the resource, nor on
    the runtime: a secret name without a namespace (or the reverse) next
    to an HSM is dropped without a trace. *)
Theorem ToArgs_ignores_kubernetes_secret
    (runtime1 runtime2 : MapIter) tick1 tick2 usc vault1 vault2 :
  modeName usc (selected usc) ∉ ["hsm-k8s"; "k8s"] →
  @ToArgs runtime1 tick1 usc vault1
  = @ToArgs runtime2 tick2 (withKubernetes usc noSecret) vault2.
Proof.
  intros Hmode.
  rewrite (@ToArgs_options runtime1), (@ToArgs_options runtime2). f_equal.
  destruct usc as [opts k8s [g|] [al|] [az|] [aws|] [oci|] [v|] [hsm|]];
    try reflexivity;
    try (exfalso; apply Hmode; by_evaluation).
  revert Hmode. unfold selected, modeName, ToArgs, clearOptions; simpl.
  destruct (decide (SecretNamespace k8s ≠ "" ∧ SecretName k8s ≠ ""))
    as [[Hns Hn]|Hk].
  - rewrite !bool_decide_eq_false_2 by done. simpl.
    intros Hmode. exfalso. apply Hmode. by_evaluation.
  - intros _. repeat case_decide; try done; tauto.
Qed.

(** [X2] at an HSM configuration that names a secret but no namespace. *)
Lemma ToArgs_ignores_kubernetes_secret_witness :
  let usc :=
    withKubernetes hsmWithSecret {| SecretNamespace := ""; SecretName := "hsm-keys" |} in
  (modeName usc (selected usc) ∉ ["hsm-k8s"; "k8s"])
  ∧ @ToArgs ordered_iter 0 usc vault0
    = @ToArgs zigzag_iter 1 (withKubernetes usc noSecret) (registeredVault JNull).
Proof.
  split; [by_evaluation|].
  apply (ToArgs_ignores_kubernetes_secret ordered_iter zigzag_iter).
  by_evaluation.
Defined.

Lemma crossCutting_effectiveOptions opts :
  crossCutting (effectiveOptions opts) = crossCutting opts.
Proof.
  destruct opts as [[[]|] [[]|] [n|] [m|]]; unfold crossCutting; simpl;
    repeat case_bool_decide; simpl; repeat case_bool_decide;
    try reflexivity; try congruence; lia.
Qed.

(** [X3] A toggle set to true and a count of zero are the same as no
    setting at all: the arguments are those of the configuration with
    such options removed, and removing them twice changes nothing. *)
Theorem ToArgs_effective_options `{MapIter} tick usc vault :
  ToArgs tick usc vault
  = ToArgs tick (withOptions usc (effectiveOptions (UnsealConfig.Options usc))) vault
  ∧ effectiveOptions (effectiveOptions (UnsealConfig.Options usc))
    = effectiveOptions (UnsealConfig.Options usc).
Proof.
  split.
  - rewrite (ToArgs_options tick usc),
      (ToArgs_options tick (withOptions usc _)).
    simpl. rewrite crossCutting_effectiveOptions. by destruct usc.
  - destruct (UnsealConfig.Options usc) as [[[]|] [[]|] [n|] [m|]];
      unfold effectiveOptions; simpl;
      repeat case_bool_decide; simpl; repeat case_bool_decide;
      try reflexivity; congruence.
Qed.

Lemma selected_hsm usc :
  selected usc = BHSM →
  UnsealConfig.Google usc = None ∧ UnsealConfig.Azure usc = None
  ∧ UnsealConfig.OCI usc = None ∧ UnsealConfig.AWS usc = None
  ∧ UnsealConfig.Alibaba usc = None ∧ UnsealConfig.Vault usc = None
  ∧ is_Some (UnsealConfig.HSM usc).
Proof.
  destruct usc as [opts k8s [g|] [al|] [az|] [aws|] [oci|] [v|] [hsm|]];
    unfold selected; simpl; intros Hs; try discriminate; eauto 10.
Qed.

(** [X4] With the HSM selected the arguments are the cross-cutting flags,
    the mode ([hsm-k8s] exactly when both the secret namespace and the
    secret name are set), module path, slot and key label, then the pin
    and the token label, each only if not empty, and, in the [hsm-k8s]
    mode only, the secret namespace, name and label selector. *)
Theorem ToArgs_hsm `{MapIter} tick usc vault :
  selected usc = BHSM →
  ∃ hsm,
    UnsealConfig.HSM usc = Some hsm
    ∧ (modeName usc BHSM = "hsm-k8s" ↔
         SecretNamespace (UnsealConfig.Kubernetes usc) ≠ ""
         ∧ SecretName (UnsealConfig.Kubernetes usc) ≠ "")
    ∧ ToArgs tick usc vault
      = crossCutting (UnsealConfig.Options usc)
        ++ ["--mode"; modeName usc BHSM;
            "--hsm-module-path"; HSMUnsealConfig.ModulePath hsm;
            "--hsm-slot-id"; Sprint (HSMUnsealConfig.SlotID hsm);
            "--hsm-key-label"; HSMUnsealConfig.KeyLabel hsm]
        ++ optional "--hsm-pin" (HSMUnsealConfig.Pin hsm)
        ++ optional "--hsm-token-label" (HSMUnsealConfig.TokenLabel hsm)
        ++ (if bool_decide (modeName usc BHSM = "hsm-k8s")
            then ["--k8s-secret-namespace";
                  SecretNamespace (UnsealConfig.Kubernetes usc);
                  "--k8s-secret-name";
                  SecretName (UnsealConfig.Kubernetes usc);
                  "--k8s-secret-labels";
                  "app.kubernetes.io/name=vault,vault_cr=" +:+ Name vault]
            else []).
Proof.
  intros Hsel.
  apply selected_hsm in Hsel as (Hg & Haz & Hoci & Haws & Hal & Hv & [hsm Hh]).
  exists hsm. split; [done|].
  assert (modeName usc BHSM = "hsm-k8s" ↔
            SecretNamespace (UnsealConfig.Kubernetes usc) ≠ ""
            ∧ SecretName (UnsealConfig.Kubernetes usc) ≠ "") as Hmode.
  { unfold modeName. repeat case_bool_decide; simpl; split; try done; tauto. }
  split; [done|].
  rewrite ToArgs_options. f_equal.
  destruct (decide (SecretNamespace (UnsealConfig.Kubernetes usc) ≠ ""
                    ∧ SecretName (UnsealConfig.Kubernetes usc) ≠ "")) as [Hk|Hk].
  - rewrite (proj2 Hmode Hk).
    unfold ToArgs, clearOptions, optional; simpl.
    rewrite Hg, Haz, Hoci, Haws, Hal, Hv, Hh, secretLabels_LabelsForVault.
    repeat case_decide; repeat case_bool_decide; try done;
      rewrite <- ?app_assoc; reflexivity.
  - assert (modeName usc BHSM = "hsm") as ->.
    { unfold modeName. repeat case_bool_decide; simpl; try done; tauto. }
    unfold ToArgs, clearOptions, optional; simpl.
    rewrite Hg, Haz, Hoci, Haws, Hal, Hv, Hh.
    repeat case_decide; repeat case_bool_decide; try done;
      rewrite <- ?app_assoc, ?app_nil_r; reflexivity.
Qed.

(** [X4] at an HSM configuration with a pin and a Kubernetes secret. *)
Lemma ToArgs_hsm_witness :
  selected hsmWithSecret = BHSM
  ∧ ∃ hsm,
      UnsealConfig.HSM hsmWithSecret = Some hsm
      ∧ (modeName hsmWithSecret BHSM = "hsm-k8s" ↔
           SecretNamespace (UnsealConfig.Kubernetes hsmWithSecret) ≠ ""
           ∧ SecretName (UnsealConfig.Kubernetes hsmWithSecret) ≠ "")
      ∧ @ToArgs ordered_iter 0 hsmWithSecret vault0
        = crossCutting (UnsealConfig.Options hsmWithSecret)
          ++ ["--mode"; modeName hsmWithSecret BHSM;
              "--hsm-module-path"; HSMUnsealConfig.ModulePath hsm;
              "--hsm-slot-id"; Sprint (HSMUnsealConfig.SlotID hsm);
              "--hsm-key-label"; HSMUnsealConfig.KeyLabel hsm]
          ++ optional "--hsm-pin" (HSMUnsealConfig.Pin hsm)
          ++ optional "--hsm-token-label" (HSMUnsealConfig.TokenLabel hsm)
          ++ (if bool_decide (modeName hsmWithSecret BHSM = "hsm-k8s")
              then ["--k8s-secret-namespace";
                    SecretNamespace (UnsealConfig.Kubernetes hsmWithSecret);
                    "--k8s-secret-name";
                    SecretName (UnsealConfig.Kubernetes hsmWithSecret);
                    "--k8s-secret-labels";
                    "app.kubernetes.io/name=vault,vault_cr=" +:+ Name vault0]
              else []).
Proof.
  split; [reflexivity|].
  apply (@ToArgs_hsm ordered_iter 0 hsmWithSecret vault0). reflexivity.
Defined.

Lemma flagsOf_pairs rest :
  flagValuePairs backendFlag rest →
  Forall (λ f, backendFlag f = true) (flagsOf rest).
Proof. induction 1; simpl; constructor; auto. Qed.

Lemma flagTokens_pairs rest :
  flagValuePairs backendFlag rest → flagTokens rest = flagsOf rest.
Proof.
  induction 1 as [|f v l Hf _ IH]; [done|].
  apply backendFlag_spec in Hf as (_ & Hf & _).
  cbn [flagTokens flagsOf]. rewrite bool_decide_eq_false_2; [by rewrite IH|].
  intros Hin. apply Hf. unfold crossCuttingFlags.
  rewrite !elem_of_cons in Hin. rewrite !elem_of_cons. tauto.
Qed.

Lemma flagTokens_crossCutting opts l :
  flagTokens (crossCutting opts ++ l)
  = flagTokens (crossCutting opts) ++ flagTokens l
  ∧ NoDup (flagTokens (crossCutting opts))
  ∧ Forall (λ f, f ∈ crossCuttingFlags) (flagTokens (crossCutting opts)).
Proof.
  unfold crossCutting.
  destruct opts as [[[]|] [[]|] [n|] [m|]]; simpl;
    repeat case_bool_decide; simpl;
    (split; [reflexivity|split; by_evaluation]).
Qed.

Lemma ToArgs_backend_flags `{MapIter} tick usc vault :
  ∃ rest,
    ToArgs tick (clearOptions usc) vault
    = "--mode" :: modeName usc (selected usc) :: rest
    ∧ flagValuePairs backendFlag rest
    ∧ NoDup (flagsOf rest).
Proof.
  destruct usc as [opts k8s g al az aws oci v hsm].
  unfold ToArgs, clearOptions, selected, modeName; simpl.
  destruct g as [g|]; simpl;
    [eexists; split; [reflexivity|split; [fvp|by_evaluation]]|].
  destruct az as [az|]; simpl;
    [eexists; split; [reflexivity|split; [fvp|by_evaluation]]|].
  destruct oci as [oci|]; simpl;
    [eexists; split; [reflexivity|split; [fvp|by_evaluation]]|].
  destruct aws as [aws|]; simpl.
  { case_decide; (eexists; split; [reflexivity|split; [fvp|by_evaluation]]). }
  destruct al as [al|]; simpl;
    [eexists; split; [reflexivity|split; [fvp|by_evaluation]]|].
  destruct v as [v|]; simpl.
  { repeat case_decide;
      (eexists; split; [reflexivity|split; [fvp|by_evaluation]]). }
  destruct hsm as [hsm|]; simpl;
    [|eexists; split; [reflexivity|split; [fvp|by_evaluation]]].
  destruct (decide (SecretNamespace k8s ≠ "" ∧ SecretName k8s ≠ ""))
    as [[Hns Hn]|Hk].
  - rewrite !bool_decide_eq_false_2 by done. simpl.
    repeat case_decide; try done; simpl;
      (eexists; split; [reflexivity|split; [fvp|by_evaluation]]).
  - assert (bool_decide (SecretNamespace k8s = "")
            || bool_decide (SecretName k8s = "") = true) as ->.
    { apply orb_true_iff. rewrite !bool_decide_eq_true.
      destruct (decide (SecretNamespace k8s = "")); [by left|].
      destruct (decide (SecretName k8s = "")); [by right|].
      destruct Hk; done. }
    repeat case_decide; try done; simpl;
      (eexists; split; [reflexivity|split; [fvp|by_evaluation]]).
Qed.

(** [X5] No flag is emitted twice.  Read as a command line (the two
    switches stand alone, every other flag takes the next token as its
    value), the arguments name pairwise different flags, [--mode] among
    them, whatever the parameter values are. *)
Theorem ToArgs_flags_distinct `{MapIter} tick usc vault :
  NoDup (flagTokens (ToArgs tick usc vault))
  ∧ "--mode" ∈ flagTokens (ToArgs tick usc vault).
Proof.
  rewrite ToArgs_options.
  destruct (ToArgs_backend_flags tick usc vault) as (rest & -> & Hrest & Hnd).
  destruct (flagTokens_crossCutting (UnsealConfig.Options usc)
              ("--mode" :: modeName usc (selected usc) :: rest))
    as (-> & Hopts & Hin).
  change (flagTokens ("--mode" :: modeName usc (selected usc) :: rest))
    with ("--mode" :: flagTokens rest).
  rewrite (flagTokens_pairs rest Hrest).
  pose proof (flagsOf_pairs rest Hrest) as Hflags.
  rewrite Forall_forall in Hin, Hflags.
  split.
  - apply NoDup_app. split; [done|]. split.
    + intros f Hf [->|Hf']%elem_of_cons.
      * apply Hin in Hf. revert Hf. by_evaluation.
      * apply Hflags, backendFlag_spec in Hf' as (_ & Hf' & _).
        by apply Hf', Hin.
    + apply NoDup_cons. split; [|done].
      intros Hm%Hflags%backendFlag_spec. by destruct Hm.
  - apply elem_of_app. right. apply elem_of_cons. by left.
Qed.

(** [X6] The label selector tells resources apart: two resources get the
    same selector only if they have the same name, whatever the order of
    the map walks. *)
Theorem label_selector_injective
    (runtime1 runtime2 : MapIter) tick1 tick2 vault1 vault2 :
  @secretLabels runtime1 tick1 (LabelsForVault vault1)
  = @secretLabels runtime2 tick2 (LabelsForVault vault2) →
  Name vault1 = Name vault2.
Proof.
  rewrite !secretLabels_LabelsForVault. intros Heq.
  simpl in Heq. by simplify_eq.
Qed.

(** [X6] at one resource walked by two runtimes. *)
Lemma label_selector_injective_witness :
  @secretLabels ordered_iter 0 (LabelsForVault vault0)
  = @secretLabels zigzag_iter 1 (LabelsForVault vault0)
  ∧ Name vault0 = Name vault0.
Proof.
  assert (@secretLabels ordered_iter 0 (LabelsForVault vault0)
          = @secretLabels zigzag_iter 1 (LabelsForVault vault0)) as Heq
    by (vm_compute; reflexivity).
  split; [exact Heq|].
  exact (label_selector_injective ordered_iter zigzag_iter 0 1 vault0 vault0 Heq).
Defined.

(** [X7] The selectors of the server and of the configurer never match
    the same object: labels that carry every label of [LabelsForVault]
    name the application [vault] and so cannot carry those of
    [LabelsForVaultConfigurer], for any two resources. *)
Theorem selectors_never_overlap vault vault' (labels : gmap string string) :
  LabelsForVault vault ⊆ labels →
  labels !! "app.kubernetes.io/name" = Some "vault"
  ∧ labels !! "vault_cr" = Some (Name vault)
  ∧ ¬ LabelsForVaultConfigurer vault' ⊆ labels.
Proof.
  intros Hsub.
  assert (labels !! "app.kubernetes.io/name" = Some "vault") as Happ.
  { eapply lookup_weaken; [|exact Hsub].
    unfold LabelsForVault. by rewrite lookup_insert_eq. }
  split; [done|]. split.
  - eapply lookup_weaken; [|exact Hsub].
    unfold LabelsForVault.
    rewrite lookup_insert_ne by done. by rewrite lookup_singleton_eq.
  - intros Hsub'.
    assert (labels !! "app.kubernetes.io/name" = Some "vault-configurator").
    { eapply lookup_weaken; [|exact Hsub'].
      unfold LabelsForVaultConfigurer. by rewrite lookup_insert_eq. }
    congruence.
Qed.

(** [X7] at the labels of an object that carries one more label. *)
Lemma selectors_never_overlap_witness :
  let labels : gmap string string :=
    <["pod-template-hash" := "5d4f8c"]> (LabelsForVault vault0) in
  LabelsForVault vault0 ⊆ labels
  ∧ labels !! "app.kubernetes.io/name" = Some "vault"
  ∧ labels !! "vault_cr" = Some (Name vault0)
  ∧ ¬ LabelsForVaultConfigurer ingressVault ⊆ labels.
Proof.
  assert (LabelsForVault vault0
          ⊆ <["pod-template-hash" := "5d4f8c"]> (LabelsForVault vault0)) as Hsub
    by (apply insert_subseteq; vm_compute; reflexivity).
  split; [exact Hsub|].
  exact (selectors_never_overlap vault0 ingressVault _ Hsub).
Defined.

(** ** Further properties of the derived facts *)

Lemma MapKeys_elem `{MapIter} {A} tick (m : gmap string A) k :
  k ∈ MapKeys tick m ↔ is_Some (m !! k).
Proof.
  unfold MapKeys. rewrite (range_perm A tick m), list_elem_of_fmap. split.
  - intros ([k' v] & -> & Hin). apply elem_of_map_to_list in Hin. eauto.
  - intros [v Hv]. exists (k, v). split; [done|]. by apply elem_of_map_to_list.
Qed.

Lemma MapKeys_head `{MapIter} {A} tick (m : gmap string A) :
  match MapKeys tick m with
  | [] => m = ∅
  | key :: _ => is_Some (m !! key)
  end.
Proof.
  destruct (MapKeys tick m) as [|k l] eqn:Hk.
  - apply map_empty. intros i. destruct (m !! i) as [x|] eqn:Hi; [|done].
    assert (i ∈ MapKeys tick m) as Hin by (apply MapKeys_elem; eauto).
    rewrite Hk in Hin. by apply elem_of_nil in Hin.
  - apply (MapKeys_elem tick m k). rewrite Hk. left.
Qed.

Lemma MapKeys_small (runtime1 runtime2 : MapIter) {A} tick1 tick2
    (m : gmap string A) :
  size m ≤ 1 → @MapKeys runtime1 A tick1 m = @MapKeys runtime2 A tick2 m.
Proof.
  intros Hs. unfold MapKeys.
  pose proof (@range_perm runtime1 A tick1 m) as H1.
  pose proof (@range_perm runtime2 A tick2 m) as H2.
  rewrite <- length_map_to_list in Hs.
  destruct (map_to_list m) as [|a [|b l]]; simpl in Hs; [| |lia].
  - apply Permutation_nil_r in H1, H2. by rewrite H1, H2.
  - apply Permutation_singleton_r in H1, H2. by rewrite H1, H2.
Qed.

Lemma GetStorageType_small (runtime1 runtime2 : MapIter) `{Cast}
    tick1 tick2 spec :
  size (getStorage spec) ≤ 1 →
  @GetStorageType runtime1 _ tick1 spec = @GetStorageType runtime2 _ tick2 spec.
Proof.
  intros Hs. unfold GetStorageType. cbv zeta.
  by rewrite (MapKeys_small runtime1 runtime2 tick1 tick2).
Qed.

Lemma GetHAStorageType_small (runtime1 runtime2 : MapIter) `{Cast}
    tick1 tick2 spec :
  size (getHAStorage spec) ≤ 1 →
  @GetHAStorageType runtime1 _ tick1 spec
  = @GetHAStorageType runtime2 _ tick2 spec.
Proof.
  intros Hs. unfold GetHAStorageType. cbv zeta.
  by rewrite (MapKeys_small runtime1 runtime2 tick1 tick2).
Qed.

Lemma HasHAStorage_small (runtime1 runtime2 : MapIter) `{Cast}
    tick1 tick2 spec :
  size (getStorage spec) ≤ 1 →
  @HasHAStorage runtime1 _ tick1 spec = @HasHAStorage runtime2 _ tick2 spec.
Proof.
  intros Hs. unfold HasHAStorage, HasStorageHAEnabled. cbv zeta.
  rewrite (GetStorageType_small runtime1 runtime2 tick1 tick2) by done.
  by rewrite (GetStorageType_small runtime1 runtime2 (S tick1) (S tick2)).
Qed.

(** [X8] The storage type is a key of the storage stanza, whatever key
    the map walk yields first, and [GetStorage] returns the parameters
    found under it; with an empty or missing stanza the type is the empty
    string and the parameters are empty.  The same holds of the
    [ha_storage] stanza. *)
Theorem storage_type_is_a_key `{MapIter, Cast} tick spec :
  (getStorage spec = ∅ →
     GetStorageType tick spec = "" ∧ GetStorage tick spec = ∅)
  ∧ (getStorage spec ≠ ∅ →
     ∃ params,
       getStorage spec !! GetStorageType tick spec = Some params
       ∧ GetStorage tick spec = ToStringMap params)
  ∧ (getHAStorage spec = ∅ →
     GetHAStorageType tick spec = "" ∧ GetHAStorage tick spec = ∅)
  ∧ (getHAStorage spec ≠ ∅ →
     ∃ params,
       getHAStorage spec !! GetHAStorageType tick spec = Some params
       ∧ GetHAStorage tick spec = ToStringMap params).
Proof.
  split; [|split; [|split]].
  - intros Hs. unfold GetStorage. cbv zeta.
    rewrite GetStorageType_empty by done. by rewrite Hs.
  - intros Hs. unfold GetStorage, GetStorageType. cbv zeta.
    pose proof (MapKeys_head tick (getStorage spec)) as Hhead.
    destruct (MapKeys tick (getStorage spec)) as [|key keys]; [done|].
    destruct Hhead as [params Hp]. exists params.
    unfold index. by rewrite Hp.
  - intros Hs. unfold GetHAStorage, GetHAStorageType. cbv zeta.
    by rewrite Hs.
  - intros Hs. unfold GetHAStorage, GetHAStorageType. cbv zeta.
    destruct (size (getHAStorage spec) =? 0) eqn:Hsize.
    { by apply Nat.eqb_eq, map_size_empty_iff in Hsize. }
    pose proof (MapKeys_head tick (getHAStorage spec)) as Hhead.
    destruct (MapKeys tick (getHAStorage spec)) as [|key keys]; [done|].
    destruct Hhead as [params Hp]. exists params.
    unfold index. by rewrite Hp.
Qed.

(** [X9] Raft means HA.  A resource with raft in its [ha_storage] stanza
    has HA storage, at any walk; a resource with raft storage has it when
    the storage stanza holds no second key, and is then never reported as
    having raft HA storage. *)
Theorem raft_has_HA_storage `{MapIter, Cast} tick tick' spec :
  (IsRaftHAStorage tick spec = true → HasHAStorage tick' spec = true)
  ∧ (size (getStorage spec) ≤ 1 →
     IsRaftStorage tick spec = true →
     HasHAStorage tick' spec = true ∧ IsRaftHAStorage tick' spec = false).
Proof.
  split.
  - unfold IsRaftHAStorage.
    intros [_ Hraft%bool_decide_eq_true]%andb_true_iff.
    apply HasHAStorage_reads. right. intros Hempty.
    unfold GetHAStorageType in Hraft. cbv zeta in Hraft.
    by rewrite Hempty in Hraft.
  - intros Hsize Hraft%bool_decide_eq_true.
    assert (∀ t, GetStorageType t spec = "raft") as Hall.
    { intros t. by rewrite (GetStorageType_small _ _ t tick). }
    split.
    + apply HasHAStorage_reads. left. rewrite !Hall.
      split; [by_evaluation|tauto].
    + unfold IsRaftHAStorage. rewrite Hall.
      by rewrite bool_decide_eq_true_2.
Qed.

(** [X10] With at most one key in the storage stanza and at most one in
    the [ha_storage] stanza, the derived facts and the rendered document
    do not depend on the order of the map walks: any two runtimes, at any
    walks, give the same storage types and parameters, the same HA and
    raft verdicts and the same result of [ConfigJSON]. *)
Theorem single_backend_determinism (runtime1 runtime2 : MapIter) `{Cast}
    tick1 tick2 vault :
  size (getStorage (Spec vault)) ≤ 1 →
  size (getHAStorage (Spec vault)) ≤ 1 →
  @GetStorageType runtime1 _ tick1 (Spec vault)
  = @GetStorageType runtime2 _ tick2 (Spec vault)
  ∧ @GetHAStorageType runtime1 _ tick1 (Spec vault)
    = @GetHAStorageType runtime2 _ tick2 (Spec vault)
  ∧ @GetStorage runtime1 _ tick1 (Spec vault)
    = @GetStorage runtime2 _ tick2 (Spec vault)
  ∧ @GetHAStorage runtime1 _ tick1 (Spec vault)
    = @GetHAStorage runtime2 _ tick2 (Spec vault)
  ∧ @HasHAStorage runtime1 _ tick1 (Spec vault)
    = @HasHAStorage runtime2 _ tick2 (Spec vault)
  ∧ @IsRaftStorage runtime1 _ tick1 (Spec vault)
    = @IsRaftStorage runtime2 _ tick2 (Spec vault)
  ∧ @IsRaftHAStorage runtime1 _ tick1 (Spec vault)
    = @IsRaftHAStorage runtime2 _ tick2 (Spec vault)
  ∧ @ConfigJSON runtime1 _ tick1 vault = @ConfigJSON runtime2 _ tick2 vault.
Proof.
  intros Hs Hha.
  pose proof (GetStorageType_small runtime1 runtime2 tick1 tick2 _ Hs) as Ht.
  pose proof (GetHAStorageType_small runtime1 runtime2 tick1 tick2 _ Hha)
    as Hhat.
  pose proof (HasHAStorage_small runtime1 runtime2 tick1 tick2 _ Hs) as Hv.
  split; [done|]. split; [done|].
  split; [unfold GetStorage; by rewrite Ht|].
  split; [unfold GetHAStorage; by rewrite Hhat|].
  split; [done|].
  split; [unfold IsRaftStorage; by rewrite Ht|].
  split.
  - unfold IsRaftHAStorage. rewrite Ht.
    by rewrite (GetHAStorageType_small runtime1 runtime2 (S tick1) (S tick2)).
  - unfold ConfigJSON. by rewrite Hv.
Qed.

(** [X10] at a resource with file storage and a raft [ha_storage]
    stanza, walked forwards by one runtime and backwards by the other. *)
Lemma single_backend_determinism_witness :
  size (@getStorage cast_plain (Spec raftHAVault)) ≤ 1
  ∧ size (@getHAStorage cast_plain (Spec raftHAVault)) ≤ 1
  ∧ @GetStorageType ordered_iter cast_plain 0 (Spec raftHAVault)
    = @GetStorageType zigzag_iter cast_plain 1 (Spec raftHAVault)
  ∧ @GetHAStorageType ordered_iter cast_plain 0 (Spec raftHAVault)
    = @GetHAStorageType zigzag_iter cast_plain 1 (Spec raftHAVault)
  ∧ @GetStorage ordered_iter cast_plain 0 (Spec raftHAVault)
    = @GetStorage zigzag_iter cast_plain 1 (Spec raftHAVault)
  ∧ @GetHAStorage ordered_iter cast_plain 0 (Spec raftHAVault)
    = @GetHAStorage zigzag_iter cast_plain 1 (Spec raftHAVault)
  ∧ @HasHAStorage ordered_iter cast_plain 0 (Spec raftHAVault)
    = @HasHAStorage zigzag_iter cast_plain 1 (Spec raftHAVault)
  ∧ @IsRaftStorage ordered_iter cast_plain 0 (Spec raftHAVault)
    = @IsRaftStorage zigzag_iter cast_plain 1 (Spec raftHAVault)
  ∧ @IsRaftHAStorage ordered_iter cast_plain 0 (Spec raftHAVault)
    = @IsRaftHAStorage zigzag_iter cast_plain 1 (Spec raftHAVault)
  ∧ @ConfigJSON ordered_iter cast_plain 0 raftHAVault
    = @ConfigJSON zigzag_iter cast_plain 1 raftHAVault.
Proof.
  assert (size (@getStorage cast_plain (Spec raftHAVault)) ≤ 1) as Hs
    by (vm_compute; lia).
  assert (size (@getHAStorage cast_plain (Spec raftHAVault)) ≤ 1) as Hha
    by (vm_compute; lia).
  split; [exact Hs|]. split; [exact Hha|].
  exact (single_backend_determinism ordered_iter zigzag_iter 0 1 raftHAVault
           Hs Hha).
Defined.

(** [X11] A configuration that does not decode to an object, or decodes
    to an empty one, leaves every derived fact at its neutral value: no
    storage type, no HA, no raft, no auto-unseal, and, as [cast.ToBool]
    reads nil as false, TLS enabled, the [https] scheme and no
    unauthenticated telemetry.  [getVaultConfig] drops the decode error,
    so none of the accessors reports the broken document. *)
Theorem empty_config_defaults `{MapIter, Cast} tick spec :
  GetVaultConfig spec = ∅ →
  ToBool JNull = false →
  GetStorageType tick spec = ""
  ∧ GetHAStorageType tick spec = ""
  ∧ GetStorage tick spec = ∅
  ∧ GetHAStorage tick spec = ∅
  ∧ HasHAStorage tick spec = false
  ∧ IsRaftStorage tick spec = false
  ∧ IsRaftHAStorage tick spec = false
  ∧ IsAutoUnseal spec = false
  ∧ IsTLSDisabled spec = false
  ∧ GetAPIScheme spec = "https"
  ∧ IsTelemetryUnauthenticated spec = false.
Proof.
  intros Hcfg Hnil.
  assert (getStorage spec = ∅) as Hs by (unfold getStorage; by rewrite Hcfg).
  assert (getHAStorage spec = ∅) as Hha
    by (unfold getHAStorage; by rewrite Hcfg).
  assert (getListener spec = ∅) as Hl by (unfold getListener; by rewrite Hcfg).
  assert (∀ t, GetStorageType t spec = "") as Ht
    by (intros t; by apply GetStorageType_empty).
  assert (∀ t, GetHAStorageType t spec = "") as Hhat
    by (intros t; unfold GetHAStorageType; by rewrite Hha).
  assert (IsTLSDisabled spec = false) as Htls
    by (unfold IsTLSDisabled; by rewrite Hl).
  split; [done|]. split; [done|].
  split; [unfold GetStorage; by rewrite Ht, Hs|].
  split; [unfold GetHAStorage; by rewrite Hhat, Hha|].
  split.
  { apply not_true_is_false. rewrite HasHAStorage_reads, !Ht.
    intros [[Hin _]|Hne]; [|done]. revert Hin. by_evaluation. }
  split; [unfold IsRaftStorage; by rewrite Ht|].
  split; [unfold IsRaftHAStorage; by rewrite Ht, Hhat|].
  split; [unfold IsAutoUnseal; by rewrite Hcfg|].
  split; [done|].
  split; [unfold GetAPIScheme; by rewrite Htls|].
  unfold IsTelemetryUnauthenticated. by rewrite Hl.
Qed.

(** [X11] at a resource whose configuration is not valid JSON. *)
Lemma empty_config_defaults_witness :
  GetVaultConfig (withImage "hashicorp/vault:1.14.8") = ∅
  ∧ @ToBool cast_plain JNull = false
  ∧ @GetStorageType ordered_iter cast_plain 0 (withImage "hashicorp/vault:1.14.8") = ""
  ∧ @GetHAStorageType ordered_iter cast_plain 0 (withImage "hashicorp/vault:1.14.8") = ""
  ∧ @GetStorage ordered_iter cast_plain 0 (withImage "hashicorp/vault:1.14.8") = ∅
  ∧ @GetHAStorage ordered_iter cast_plain 0 (withImage "hashicorp/vault:1.14.8") = ∅
  ∧ @HasHAStorage ordered_iter cast_plain 0 (withImage "hashicorp/vault:1.14.8") = false
  ∧ @IsRaftStorage ordered_iter cast_plain 0 (withImage "hashicorp/vault:1.14.8") = false
  ∧ @IsRaftHAStorage ordered_iter cast_plain 0 (withImage "hashicorp/vault:1.14.8") = false
  ∧ IsAutoUnseal (withImage "hashicorp/vault:1.14.8") = false
  ∧ @IsTLSDisabled cast_plain (withImage "hashicorp/vault:1.14.8") = false
  ∧ @GetAPIScheme cast_plain (withImage "hashicorp/vault:1.14.8") = "https"
  ∧ @IsTelemetryUnauthenticated cast_plain (withImage "hashicorp/vault:1.14.8") = false.
Proof.
  split; [reflexivity|]. split; [reflexivity|].
  apply (@empty_config_defaults ordered_iter cast_plain 0
           (withImage "hashicorp/vault:1.14.8")); reflexivity.
Defined.

(** ** Further properties of the rendered configuration *)

Lemma HasHAStorage_empty_config `{MapIter, Cast} tick spec :
  GetVaultConfig spec = ∅ → HasHAStorage tick spec = false.
Proof.
  intros Hcfg.
  assert (getStorage spec = ∅) as Hs by (unfold getStorage; by rewrite Hcfg).
  assert (getHAStorage spec = ∅) as Hha
    by (unfold getHAStorage; by rewrite Hcfg).
  apply not_true_is_false. rewrite HasHAStorage_reads.
  rewrite !GetStorageType_empty by done.
  intros [[Hin _]|Hne]; [|done]. revert Hin. by_evaluation.
Qed.

Lemma HasHAStorage_ext `{MapIter, Cast} tick spec spec' :
  getStorage spec' = getStorage spec →
  getHAStorage spec' = getHAStorage spec →
  HasHAStorage tick spec' = HasHAStorage tick spec.
Proof.
  intros Hs Hha.
  unfold HasHAStorage, HasStorageHAEnabled, hasHAStorageStanza, GetStorageType.
  by rewrite Hs, Hha.
Qed.

(** Merging the fragment a second time changes nothing. *)
Lemma deepMergeElem_idempotent path leaf de :
  deepMergeElem (Some (deepMergeElem de (chain path leaf))) (chain path leaf)
  = deepMergeElem de (chain path leaf).
Proof.
  revert de. induction path as [|k path IH]; intros de.
  - cbn [chain deepMergeElem].
    destruct de as [d|]; [destruct (isEmptyValue d) eqn:He|];
      try (by destruct (isEmptyValue (JString leaf))).
    by rewrite He.
  - assert (∀ m, deepMergeElem
                   (Some (JObject (<[k := deepMergeElem (m !! k) (chain path leaf)]> m)))
                   (chain (k :: path) leaf)
                 = JObject (<[k := deepMergeElem (m !! k) (chain path leaf)]> m))
      as Hobj.
    { intros m. cbn [chain]. rewrite deepMergeElem_map. unfold deepMerge.
      cbn [foldl fst snd].
      rewrite isEmptyValue_insert, lookup_insert_eq, IH.
      by rewrite insert_insert_eq. }
    assert (deepMergeElem (Some (toJSON (chain (k :: path) leaf)))
              (chain (k :: path) leaf)
            = toJSON (chain (k :: path) leaf)) as Hnew.
    { specialize (Hobj ∅). rewrite lookup_empty, deepMergeElem_None in Hobj.
      exact Hobj. }
    destruct de as [d|]; [|by rewrite deepMergeElem_None].
    destruct d as [|b|q|s|l|m].
    1-5: cbn [chain deepMergeElem];
         match goal with
         | |- context [if ?c then _ else _] => destruct c eqn:He
         end; [exact Hnew|]; cbn [deepMergeElem]; by rewrite He.
    cbn [chain]. rewrite deepMergeElem_map. unfold deepMerge.
    cbn [foldl fst snd]. rewrite isEmptyValue_insert. apply Hobj.
Qed.

(** [X12] [ConfigJSON] fails exactly when the configuration is not
    well-formed JSON, holds a number outside the range of [float64], or
    is a JSON value other than an object or [null].  A [null]
    configuration is rendered as [null], with service registration
    enabled too, since it has no HA storage; an object whose numbers are
    all in range is always rendered as an object.  Where a number is out
    of range the two readers of the document part ways: [ConfigJSON]
    returns the error of the decoder, while [GetVaultConfig], which drops
    it, returns the entries that were decoded. *)
Theorem ConfigJSON_outcome `{MapIter, Cast} tick vault :
  match VaultSpec.Config (Spec vault) with
  | RawValue (JObject doc) =>
      (∃ doc', ConfigJSON tick vault = inr (JObject doc'))
      ∧ GetVaultConfig (Spec vault) = doc
  | RawValue JNull =>
      ConfigJSON tick vault = inr JNull ∧ GetVaultConfig (Spec vault) = ∅
  | RawOutOfRange (JObject doc) =>
      (∃ err, ConfigJSON tick vault = inl err)
      ∧ GetVaultConfig (Spec vault) = doc
  | _ =>
      (∃ err, ConfigJSON tick vault = inl err)
      ∧ GetVaultConfig (Spec vault) = ∅
  end.
Proof.
  pose proof (GetVaultConfig_document (Spec vault)) as Hdoc.
  pose proof (HasHAStorage_empty_config tick (Spec vault)) as Hha.
  unfold ConfigJSON.
  destruct (VaultSpec.Config (Spec vault)) as [|[|b|q|s|l|doc]|[|b|q|s|l|doc]];
    cbn [Unmarshal]; (split; [|exact Hdoc]); eauto.
  - rewrite Hha by done. by rewrite andb_false_r.
  - destruct (_ && _); simpl; eauto.
Qed.

(** [X13] A [service_registration] stanza of the user's that already
    holds a non-empty value on the way to [kubernetes.namespace] blocks
    the merge altogether: the document is rendered as it is, whatever the
    flag and the storage are. *)
Theorem ConfigJSON_blocked_fragment `{MapIter, Cast} tick vault doc :
  VaultSpec.Config (Spec vault) = RawValue (JObject doc) →
  fillable ["kubernetes"; "namespace"] (doc !! "service_registration") = false →
  ConfigJSON tick vault = inr (JObject doc).
Proof.
  intros Hcfg Hblocked. rewrite (ConfigJSON_object tick vault doc Hcfg).
  destruct (_ && _); [|done].
  destruct (doc !! "service_registration") as [d|] eqn:Hd; [|done].
  rewrite deepMergeElem_blocked by done. by rewrite insert_id.
Qed.

(** [X13] at a raft resource whose document registers in a namespace of
    the user's choice. *)
Lemma ConfigJSON_blocked_fragment_witness :
  let stanza :=
    JObject {["kubernetes" := JObject {["namespace" := JString "elsewhere"]}]} in
  let doc : gmap string JSON :=
    {[ "storage" := JObject {["raft" := JObject ∅]};
       "service_registration" := stanza ]} in
  VaultSpec.Config (Spec (registeredVault stanza)) = RawValue (JObject doc)
  ∧ fillable ["kubernetes"; "namespace"] (doc !! "service_registration") = false
  ∧ @ConfigJSON ordered_iter cast_plain 0 (registeredVault stanza)
    = inr (JObject doc).
Proof.
  split; [reflexivity|]. split; [vm_compute; reflexivity|].
  apply (@ConfigJSON_blocked_fragment ordered_iter cast_plain);
    [reflexivity|vm_compute; reflexivity].
Defined.

(** What [ConfigJSON] renders, by the configuration. *)
Lemma ConfigJSON_rendered `{MapIter, Cast} tick vault out :
  ConfigJSON tick vault = inr out →
  (VaultSpec.Config (Spec vault) = RawValue JNull ∧ out = JNull)
  ∨ ∃ doc,
      VaultSpec.Config (Spec vault) = RawValue (JObject doc)
      ∧ (out = JObject doc
         ∨ VaultSpec.ServiceRegistrationEnabled (Spec vault)
           && HasHAStorage tick (Spec vault) = true
           ∧ out = JObject (<["service_registration" :=
                     deepMergeElem (doc !! "service_registration")
                       (chain ["kubernetes"; "namespace"] (Namespace vault))]>
                     doc)).
Proof.
  destruct (VaultSpec.Config (Spec vault))
    as [|[|b|q|s|l|doc]|[|b|q|s|l|doc]] eqn:Hcfg;
    try (unfold ConfigJSON; rewrite Hcfg; by cbn [Unmarshal]).
  - unfold ConfigJSON. rewrite Hcfg. cbn [Unmarshal].
    rewrite (HasHAStorage_empty_config tick (Spec vault))
      by (by rewrite GetVaultConfig_document, Hcfg).
    rewrite andb_false_r. intros Hout. apply (inj inr) in Hout. by left.
  - rewrite (ConfigJSON_object tick vault doc Hcfg).
    destruct (_ && _); intros Hout; apply (inj inr) in Hout;
      right; exists doc; split; auto.
Qed.

Lemma ConfigJSON_lookup `{MapIter, Cast} tick vault out :
  ConfigJSON tick vault = inr out →
  ∀ k, k ≠ "service_registration" →
    GetVaultConfig (Spec (withConfig vault (RawValue out))) !! k
    = GetVaultConfig (Spec vault) !! k.
Proof.
  intros Hout k Hk. rewrite !GetVaultConfig_document.
  cbn [withConfig Spec VaultSpec.Config].
  destruct (ConfigJSON_rendered tick vault out Hout)
    as [[-> ->]|(doc & -> & [->|[_ ->]])]; try done.
  cbn [document]. by rewrite lookup_insert_ne.
Qed.

(** [X14] Rendering is idempotent: the document that [ConfigJSON]
    renders, put back as the configuration of the resource, is rendered
    as itself. *)
Theorem ConfigJSON_idempotent `{MapIter, Cast} tick vault out :
  ConfigJSON tick vault = inr out →
  ConfigJSON tick (withConfig vault (RawValue out)) = inr out.
Proof.
  intros Hout.
  assert (HasHAStorage tick (Spec (withConfig vault (RawValue out)))
          = HasHAStorage tick (Spec vault)) as Hha.
  { apply HasHAStorage_ext; unfold getStorage, getHAStorage, index;
      by rewrite (ConfigJSON_lookup tick vault out Hout). }
  destruct (ConfigJSON_rendered tick vault out Hout)
    as [[Hcfg ->]|(doc & Hcfg & [->|[Hb ->]])].
  - unfold ConfigJSON. rewrite Hha.
    cbn [withConfig Spec VaultSpec.Config Unmarshal].
    rewrite (HasHAStorage_empty_config tick (Spec vault))
      by (by rewrite GetVaultConfig_document, Hcfg).
    by rewrite andb_false_r.
  - rewrite (ConfigJSON_object tick _ doc) by done. rewrite Hha.
    cbn [withConfig Spec VaultSpec.ServiceRegistrationEnabled Namespace].
    rewrite (ConfigJSON_object tick vault doc Hcfg) in Hout.
    exact Hout.
  - erewrite ConfigJSON_object by reflexivity. rewrite Hha.
    cbn [withConfig Spec VaultSpec.ServiceRegistrationEnabled Namespace].
    rewrite Hb, lookup_insert_eq, deepMergeElem_idempotent.
    by rewrite insert_insert_eq.
Qed.

(** [X14] at a raft resource without a stanza of its own: the fragment
    is merged once and stays. *)
Lemma ConfigJSON_idempotent_witness :
  let out :=
    JObject {[ "storage" := JObject {["raft" := JObject ∅]};
               "service_registration" :=
                 JObject {["kubernetes" :=
                   JObject {["namespace" := JString "vault-system"]}]} ]} in
  @ConfigJSON ordered_iter cast_plain 0 (registeredVault JNull) = inr out
  ∧ @ConfigJSON ordered_iter cast_plain 0
      (withConfig (registeredVault JNull) (RawValue out)) = inr out.
Proof.
  assert (@ConfigJSON ordered_iter cast_plain 0 (registeredVault JNull)
          = inr (JObject {[ "storage" := JObject {["raft" := JObject ∅]};
               "service_registration" :=
                 JObject {["kubernetes" :=
                   JObject {["namespace" := JString "vault-system"]}]} ]}))
    as Hout by (vm_compute; reflexivity).
  split; [exact Hout|].
  exact (@ConfigJSON_idempotent ordered_iter cast_plain 0 _ _ Hout).
Defined.

(** [X15] The rendered document describes the same server: read back as
    the configuration of the resource, it gives the same storage,
    [ha_storage] and listener stanzas and so the same storage types, HA
    and raft verdicts, TLS setting and seal as the document it was
    rendered from.  The merge writes under [service_registration] only,
    which none of the derived facts reads. *)
Theorem ConfigJSON_keeps_derived_facts `{MapIter, Cast} tick vault out :
  ConfigJSON tick vault = inr out →
  let spec := Spec vault in
  let spec' := Spec (withConfig vault (RawValue out)) in
  getStorage spec' = getStorage spec
  ∧ getHAStorage spec' = getHAStorage spec
  ∧ getListener spec' = getListener spec
  ∧ IsAutoUnseal spec' = IsAutoUnseal spec
  ∧ IsTLSDisabled spec' = IsTLSDisabled spec
  ∧ IsTelemetryUnauthenticated spec' = IsTelemetryUnauthenticated spec
  ∧ ∀ walk,
      GetStorageType walk spec' = GetStorageType walk spec
      ∧ GetHAStorageType walk spec' = GetHAStorageType walk spec
      ∧ HasHAStorage walk spec' = HasHAStorage walk spec
      ∧ IsRaftStorage walk spec' = IsRaftStorage walk spec
      ∧ IsRaftHAStorage walk spec' = IsRaftHAStorage walk spec.
Proof.
  intros Hout spec spec'.
  pose proof (ConfigJSON_lookup tick vault out Hout) as Hk.
  fold spec spec' in Hk.
  assert (getStorage spec' = getStorage spec) as Hs
    by (unfold getStorage, index; by rewrite Hk).
  assert (getHAStorage spec' = getHAStorage spec) as Hha
    by (unfold getHAStorage, index; by rewrite Hk).
  assert (getListener spec' = getListener spec) as Hl
    by (unfold getListener, index; by rewrite Hk).
  split; [done|]. split; [done|]. split; [done|].
  split; [unfold IsAutoUnseal; by rewrite Hk|].
  split; [unfold IsTLSDisabled; by rewrite Hl|].
  split; [unfold IsTelemetryUnauthenticated; by rewrite Hl|].
  intros walk.
  assert (∀ t, GetStorageType t spec' = GetStorageType t spec) as Ht
    by (intros t; unfold GetStorageType; by rewrite Hs).
  assert (∀ t, GetHAStorageType t spec' = GetHAStorageType t spec) as Hhat
    by (intros t; unfold GetHAStorageType; by rewrite Hha).
  split; [done|]. split; [done|].
  split; [by apply HasHAStorage_ext|].
  split; [unfold IsRaftStorage; by rewrite Ht|].
  unfold IsRaftHAStorage. by rewrite Ht, Hhat.
Qed.

(** [X15] at the raft resource: rendering adds the fragment and leaves
    every derived fact as it was. *)
Lemma ConfigJSON_keeps_derived_facts_witness :
  let out :=
    JObject {[ "storage" := JObject {["raft" := JObject ∅]};
               "service_registration" :=
                 JObject {["kubernetes" :=
                   JObject {["namespace" := JString "vault-system"]}]} ]} in
  let spec := Spec (registeredVault JNull) in
  let spec' := Spec (withConfig (registeredVault JNull) (RawValue out)) in
  @ConfigJSON ordered_iter cast_plain 0 (registeredVault JNull) = inr out
  ∧ @getStorage cast_plain spec' = @getStorage cast_plain spec
  ∧ @getHAStorage cast_plain spec' = @getHAStorage cast_plain spec
  ∧ @getListener cast_plain spec' = @getListener cast_plain spec
  ∧ IsAutoUnseal spec' = IsAutoUnseal spec
  ∧ @IsTLSDisabled cast_plain spec' = @IsTLSDisabled cast_plain spec
  ∧ @IsTelemetryUnauthenticated cast_plain spec'
    = @IsTelemetryUnauthenticated cast_plain spec
  ∧ ∀ walk,
      @GetStorageType ordered_iter cast_plain walk spec'
      = @GetStorageType ordered_iter cast_plain walk spec
      ∧ @GetHAStorageType ordered_iter cast_plain walk spec'
        = @GetHAStorageType ordered_iter cast_plain walk spec
      ∧ @HasHAStorage ordered_iter cast_plain walk spec'
        = @HasHAStorage ordered_iter cast_plain walk spec
      ∧ @IsRaftStorage ordered_iter cast_plain walk spec'
        = @IsRaftStorage ordered_iter cast_plain walk spec
      ∧ @IsRaftHAStorage ordered_iter cast_plain walk spec'
        = @IsRaftHAStorage ordered_iter cast_plain walk spec.
Proof.
  assert (@ConfigJSON ordered_iter cast_plain 0 (registeredVault JNull)
          = inr (JObject {[ "storage" := JObject {["raft" := JObject ∅]};
               "service_registration" :=
                 JObject {["kubernetes" :=
                   JObject {["namespace" := JString "vault-system"]}]} ]}))
    as Hout by (vm_compute; reflexivity).
  split; [exact Hout|].
  exact (@ConfigJSON_keeps_derived_facts ordered_iter cast_plain 0 _ _ Hout).
Defined.

(** ** Further properties of the ingress and of the API endpoint *)

Lemma tls_annotations_twice (annotations : gmap string string) :
  let secured a :=
    <["ingress.kubernetes.io/secure-backends" := "true"]>
      (<["ingress.kubernetes.io/protocol" := "https"]>
         (<["nginx.ingress.kubernetes.io/backend-protocol" := "HTTPS"]> a)) in
  secured (secured annotations) = secured annotations.
Proof.
  intros secured. unfold secured. apply map_eq. intros k.
  destruct (decide ("ingress.kubernetes.io/secure-backends" = k)) as [<-|];
    [by rewrite !lookup_insert_eq|].
  rewrite !(lookup_insert_ne _ "ingress.kubernetes.io/secure-backends") by done.
  destruct (decide ("ingress.kubernetes.io/protocol" = k)) as [<-|];
    [by rewrite !lookup_insert_eq|].
  rewrite !(lookup_insert_ne _ "ingress.kubernetes.io/protocol") by done.
  destruct (decide ("nginx.ingress.kubernetes.io/backend-protocol" = k))
    as [<-|]; [by rewrite !lookup_insert_eq|].
  by rewrite !lookup_insert_ne by done.
Qed.

(** [X16] [GetIngress] is idempotent and touches the ingress only: a
    second call returns the same ingress and leaves the resource as the
    first call left it; the resource afterwards holds the returned
    ingress and is otherwise the one before; without a declared ingress
    nothing is returned and nothing changes. *)
Theorem GetIngress_idempotent `{Cast} vault :
  GetIngress (GetIngress vault).2 = GetIngress vault
  ∧ VaultSpec.Ingress (Spec (GetIngress vault).2) = (GetIngress vault).1
  ∧ Name (GetIngress vault).2 = Name vault
  ∧ Namespace (GetIngress vault).2 = Namespace vault
  ∧ VaultSpec.Image (Spec (GetIngress vault).2) = VaultSpec.Image (Spec vault)
  ∧ VaultSpec.Config (Spec (GetIngress vault).2) = VaultSpec.Config (Spec vault)
  ∧ VaultSpec.UnsealConfig (Spec (GetIngress vault).2)
    = VaultSpec.UnsealConfig (Spec vault)
  ∧ VaultSpec.ServiceRegistrationEnabled (Spec (GetIngress vault).2)
    = VaultSpec.ServiceRegistrationEnabled (Spec vault)
  ∧ VaultSpec.TLSExpiryThreshold (Spec (GetIngress vault).2)
    = VaultSpec.TLSExpiryThreshold (Spec vault)
  ∧ (VaultSpec.Ingress (Spec vault) = None → GetIngress vault = (None, vault)).
Proof.
  destruct vault as [name ns [img cfg usc sr [[ann [cls be rules]]|] tls]];
    [|by repeat split].
  split; [|by repeat split].
  unfold GetIngress.
  cbn [Spec VaultSpec.Ingress Ingress.Spec Ingress.Annotations netv1.Rules
       netv1.DefaultBackend netv1.IngressClassName snd Name Namespace
       VaultSpec.Image VaultSpec.Config VaultSpec.UnsealConfig
       VaultSpec.ServiceRegistrationEnabled VaultSpec.TLSExpiryThreshold].
  change (IsTLSDisabled
            {| VaultSpec.Image := img; VaultSpec.Config := cfg;
               VaultSpec.UnsealConfig := usc;
               VaultSpec.ServiceRegistrationEnabled := sr;
               VaultSpec.Ingress := ?[i];
               VaultSpec.TLSExpiryThreshold := tls |})
    with (IsTLSDisabled
            {| VaultSpec.Image := img; VaultSpec.Config := cfg;
               VaultSpec.UnsealConfig := usc;
               VaultSpec.ServiceRegistrationEnabled := sr;
               VaultSpec.Ingress := None;
               VaultSpec.TLSExpiryThreshold := tls |}).
  destruct (IsTLSDisabled _); destruct rules, be; simpl;
    rewrite ?tls_annotations_twice; reflexivity.
Qed.

(** [X17] The API scheme is coherent across the accessors: it is [http]
    exactly when TLS is disabled and [https] otherwise; under Istio the
    API port is named after it; and with the [https] scheme the returned
    ingress carries the three TLS backend annotations. *)
Theorem API_scheme_coherent `{Cast} vault rest :
  (GetAPIScheme (Spec vault) = "http" ↔ IsTLSDisabled (Spec vault) = true)
  ∧ (GetAPIScheme (Spec vault) = "https" ↔ IsTLSDisabled (Spec vault) = false)
  ∧ GetAPIPortName (Spec vault) rest
    = (if VaultSpecRest.IstioEnabled rest
       then GetAPIScheme (Spec vault) +:+ "-api-port" else "api-port")
  ∧ ∀ ingress,
      (GetIngress vault).1 = Some ingress →
      GetAPIScheme (Spec vault) = "https" →
      ∀ k v, (k, v) ∈ tlsAnnotations →
        default ∅ (Ingress.Annotations ingress) !! k = Some v.
Proof.
  unfold GetAPIScheme, GetAPIPortName, GetIngress.
  destruct (IsTLSDisabled (Spec vault)) eqn:Htls.
  - split; [done|]. split; [done|]. split; [done|].
    intros ? _ [=].
  - split; [done|]. split; [done|]. split; [done|].
    intros ingress Hing _ k v Hkv.
    destruct (VaultSpec.Ingress (Spec vault)) as [declared|]; [|done].
    cbn [fst negb] in Hing. injection Hing as <-.
    cbn [Ingress.Annotations default from_option id].
    unfold tlsAnnotations in Hkv.
    rewrite !elem_of_cons, elem_of_nil in Hkv.
    destruct Hkv as [[= -> ->]|[[= -> ->]|[[= -> ->]|[]]]];
      by simplify_map_eq.
Qed.

(** ** Further properties of the accessors with defaults *)

(** [X18] The accessors with a default never return the empty string:
    each returns the declared value, or its default when none is
    declared.  The image of the operator's own tool is the exception, as
    its default is a package variable: it is empty exactly when both the
    field and the variable are. *)
Theorem accessors_never_empty spec rest DefaultBankVaultsImage :
  (GetVaultImage spec ≠ ""
   ∧ GetVaultImage spec ∈ [VaultSpec.Image spec; "hashicorp/vault:latest"])
  ∧ (GetStatsDImage rest ≠ ""
     ∧ GetStatsDImage rest
       ∈ [VaultSpecRest.StatsDImage rest; "prom/statsd-exporter:latest"])
  ∧ (GetFluentDImage rest ≠ ""
     ∧ GetFluentDImage rest
       ∈ [VaultSpecRest.FluentDImage rest; "fluent/fluentd:edge"])
  ∧ (GetFluentDConfMountPath rest ≠ ""
     ∧ GetFluentDConfMountPath rest
       ∈ [VaultSpecRest.FluentDConfLocation rest; "/fluentd/etc"])
  ∧ (GetConfigPath rest ≠ ""
     ∧ GetConfigPath rest ∈ [VaultSpecRest.ConfigPath rest; "/vault/config"])
  ∧ (GetVeleroFsfreezeImage rest ≠ ""
     ∧ GetVeleroFsfreezeImage rest
       ∈ [VaultSpecRest.VeleroFsfreezeImage rest; "ubuntu:bionic"])
  ∧ (GetServiceAccount rest ≠ ""
     ∧ GetServiceAccount rest ∈ [VaultSpecRest.ServiceAccount rest; "default"])
  ∧ (GetBankVaultsImage DefaultBankVaultsImage rest = "" ↔
       VaultSpecRest.BankVaultsImage rest = "" ∧ DefaultBankVaultsImage = "").
Proof.
  unfold GetVaultImage, GetStatsDImage, GetFluentDImage,
    GetFluentDConfMountPath, GetConfigPath, GetVeleroFsfreezeImage,
    GetServiceAccount, GetBankVaultsImage.
  repeat split; repeat case_bool_decide; try done;
    try (apply elem_of_cons; by left);
    try (apply elem_of_cons; right; apply elem_of_cons; by left);
    try tauto.
  all: by intros [? ?].
Qed.

(** [X19] The getters that allocate a nil map or slice are idempotent
    and do not interfere: what one leaves behind does not change when it
    is called again, any two of them can be called in either order, and
    none changes the value that any of the seven returns. *)
Theorem lazy_getters_independent i j init init' spec :
  lazyInits !! i = Some init →
  lazyInits !! j = Some init' →
  init (init spec) = init spec
  ∧ init (init' spec) = init' (init spec)
  ∧ (GetWatchedSecretsLabels (init spec)).1 = (GetWatchedSecretsLabels spec).1
  ∧ (GetWatchedSecretsAnnotations (init spec)).1
    = (GetWatchedSecretsAnnotations spec).1
  ∧ (GetAnnotations (init spec)).1 = (GetAnnotations spec).1
  ∧ (GetVaultLabels (init spec)).1 = (GetVaultLabels spec).1
  ∧ (GetVaultConfigurerLabels (init spec)).1
    = (GetVaultConfigurerLabels spec).1
  ∧ (GetVaultAnnotations (init spec)).1 = (GetVaultAnnotations spec).1
  ∧ (GetVaultConfigurerAnnotations (init spec)).1
    = (GetVaultConfigurerAnnotations spec).1.
Proof.
  intros Hi Hj.
  destruct spec as [[?|] [?|] [?|] [?|] [?|] [?|] [?|]];
    destruct i as [|[|[|[|[|[|[|?]]]]]]]; try discriminate;
    injection Hi as <-;
    destruct j as [|[|[|[|[|[|[|?]]]]]]]; try discriminate;
    injection Hj as <-;
    repeat split; reflexivity.
Qed.

(** [X19] at a spec with nothing declared: the vault labels and the
    annotations are allocated in either order. *)
Lemma lazy_getters_independent_witness :
  let spec :=
    {| VaultSpecMaps.WatchedSecretsLabels := None;
       VaultSpecMaps.WatchedSecretsAnnotations := None;
       VaultSpecMaps.Annotations := None;
       VaultSpecMaps.VaultAnnotations := None;
       VaultSpecMaps.VaultLabels := None;
       VaultSpecMaps.VaultConfigurerAnnotations := None;
       VaultSpecMaps.VaultConfigurerLabels := None |} in
  let init spec := (GetVaultLabels spec).2 in
  let init' spec := (GetAnnotations spec).2 in
  lazyInits !! 3 = Some init
  ∧ lazyInits !! 2 = Some init'
  ∧ init (init spec) = init spec
  ∧ init (init' spec) = init' (init spec)
  ∧ (GetWatchedSecretsLabels (init spec)).1 = (GetWatchedSecretsLabels spec).1
  ∧ (GetWatchedSecretsAnnotations (init spec)).1
    = (GetWatchedSecretsAnnotations spec).1
  ∧ (GetAnnotations (init spec)).1 = (GetAnnotations spec).1
  ∧ (GetVaultLabels (init spec)).1 = (GetVaultLabels spec).1
  ∧ (GetVaultConfigurerLabels (init spec)).1
    = (GetVaultConfigurerLabels spec).1
  ∧ (GetVaultAnnotations (init spec)).1 = (GetVaultAnnotations spec).1
  ∧ (GetVaultConfigurerAnnotations (init spec)).1
    = (GetVaultConfigurerAnnotations spec).1.
Proof.
  intros spec init init'.
  split; [reflexivity|]. split; [reflexivity|].
  apply (lazy_getters_independent 3 2 init init' spec); reflexivity.
Defined.

(** ** Further properties of the version of the image *)

(** [X20] [GetVersion] reads the declared image, not the one the server
    runs: with no image declared [GetVaultImage] falls back to
    [hashicorp/vault:latest], while [GetVersion] parses the empty string
    and fails with the parse error of the reference parser. *)
Theorem GetVersion_without_image `{VersionParsers} spec err :
  VaultSpec.Image spec = "" →
  ParseAnyReference "" = inl err →
  GetVaultImage spec = "hashicorp/vault:latest"
  ∧ GetVersion spec = inl (InvalidReference err).
Proof.
  intros Himg Herr. unfold GetVaultImage, GetVersion. rewrite Himg, Herr.
  by rewrite bool_decide_eq_true_2.
Qed.

(** [X20] on the parser pair of the examples. *)
Lemma GetVersion_without_image_witness :
  VaultSpec.Image (withImage "") = ""
  ∧ @ParseAnyReference Parsers.parsers "" = inl Parsers.invalidFormat
  ∧ GetVaultImage (withImage "") = "hashicorp/vault:latest"
  ∧ @GetVersion Parsers.parsers (withImage "")
    = inl (InvalidReference Parsers.invalidFormat).
Proof.
  split; [reflexivity|]. split; [vm_compute; reflexivity|].
  apply (@GetVersion_without_image Parsers.parsers);
    [reflexivity|vm_compute; reflexivity].
Defined.

(** ** The remaining variants of the argument synthesizer *)

Lemma selected_kubernetes usc :
  selected usc = BKubernetesSecret →
  usc = kubernetesOnly (UnsealConfig.Options usc) (UnsealConfig.Kubernetes usc).
Proof.
  destruct usc as [opts k8s [g|] [al|] [az|] [aws|] [oci|] [v|] [hsm|]];
    unfold selected; simpl; intros Hs; try discriminate; reflexivity.
Qed.

(** [X21] With no backend configured the keys go to a Kubernetes secret:
    after the cross-cutting flags the arguments are the mode [k8s], the
    secret namespace, defaulting to the namespace of the resource, the
    secret name, defaulting to the name of the resource followed by
    [-unseal-keys], and the label selector of the resource. *)
Theorem ToArgs_kubernetes_secret `{MapIter} tick usc vault :
  selected usc = BKubernetesSecret →
  ToArgs tick usc vault
  = crossCutting (UnsealConfig.Options usc)
    ++ ["--mode"; "k8s";
        "--k8s-secret-namespace";
        (if bool_decide (SecretNamespace (UnsealConfig.Kubernetes usc) = "")
         then Namespace vault
         else SecretNamespace (UnsealConfig.Kubernetes usc));
        "--k8s-secret-name";
        (if bool_decide (SecretName (UnsealConfig.Kubernetes usc) = "")
         then Name vault +:+ "-unseal-keys"
         else SecretName (UnsealConfig.Kubernetes usc));
        "--k8s-secret-labels";
        "app.kubernetes.io/name=vault,vault_cr=" +:+ Name vault].
Proof.
  intros Hsel%selected_kubernetes.
  rewrite ToArgs_options. f_equal. rewrite Hsel.
  unfold ToArgs, clearOptions, kubernetesOnly; simpl.
  rewrite secretLabels_LabelsForVault.
  repeat case_decide; repeat case_bool_decide; done.
Qed.

(** [X21] at a configuration that declares nothing. *)
Lemma ToArgs_kubernetes_secret_witness :
  let usc := kubernetesOnly noOptions {| SecretNamespace := ""; SecretName := "" |} in
  selected usc = BKubernetesSecret
  ∧ @ToArgs ordered_iter 0 usc vault0
    = crossCutting (UnsealConfig.Options usc)
      ++ ["--mode"; "k8s";
          "--k8s-secret-namespace";
          (if bool_decide (SecretNamespace (UnsealConfig.Kubernetes usc) = "")
           then Namespace vault0
           else SecretNamespace (UnsealConfig.Kubernetes usc));
          "--k8s-secret-name";
          (if bool_decide (SecretName (UnsealConfig.Kubernetes usc) = "")
           then Name vault0 +:+ "-unseal-keys"
           else SecretName (UnsealConfig.Kubernetes usc));
          "--k8s-secret-labels";
          "app.kubernetes.io/name=vault,vault_cr=" +:+ Name vault0].
Proof.
  intros usc. split; [reflexivity|].
  apply (@ToArgs_kubernetes_secret ordered_iter 0 usc vault0). reflexivity.
Defined.

(** [X22] The four cloud variants without optional parameters.  When the
    priority selects Google, Azure, Oracle or Alibaba, the arguments are
    the cross-cutting flags, the mode of the variant and its parameters,
    each under its own flag in the order of the source, empty values
    included. *)
Theorem ToArgs_cloud_variants `{MapIter} tick usc vault :
  match selected usc with
  | BGoogle =>
      ∃ google,
        UnsealConfig.Google usc = Some google
        ∧ ToArgs tick usc vault
          = crossCutting (UnsealConfig.Options usc)
            ++ ["--mode"; "google-cloud-kms-gcs";
                "--google-cloud-kms-key-ring"; GoogleUnsealConfig.KMSKeyRing google;
                "--google-cloud-kms-crypto-key"; GoogleUnsealConfig.KMSCryptoKey google;
                "--google-cloud-kms-location"; GoogleUnsealConfig.KMSLocation google;
                "--google-cloud-kms-project"; GoogleUnsealConfig.KMSProject google;
                "--google-cloud-storage-bucket"; GoogleUnsealConfig.StorageBucket google]
  | BAzure =>
      ∃ azure,
        UnsealConfig.Azure usc = Some azure
        ∧ ToArgs tick usc vault
          = crossCutting (UnsealConfig.Options usc)
            ++ ["--mode"; "azure-key-vault";
                "--azure-key-vault-name"; AzureUnsealConfig.KeyVaultName azure]
  | BOracle =>
      ∃ oci,
        UnsealConfig.OCI usc = Some oci
        ∧ ToArgs tick usc vault
          = crossCutting (UnsealConfig.Options usc)
            ++ ["--mode"; "oci";
                "--oci-key-ocid"; OCIUnsealConfig.KeyOCID oci;
                "--oci-cryptographic-endpoint"; OCIUnsealConfig.CryptographicEndpoint oci;
                "--oci-bucket-namespace"; OCIUnsealConfig.BucketNamespace oci;
                "--oci-bucket-name"; OCIUnsealConfig.BucketName oci;
                "--oci-bucket-prefix"; OCIUnsealConfig.BucketPrefix oci]
  | BAlibaba =>
      ∃ alibaba,
        UnsealConfig.Alibaba usc = Some alibaba
        ∧ ToArgs tick usc vault
          = crossCutting (UnsealConfig.Options usc)
            ++ ["--mode"; "alibaba-kms-oss";
                "--alibaba-kms-region"; AlibabaUnsealConfig.KMSRegion alibaba;
                "--alibaba-kms-key-id"; AlibabaUnsealConfig.KMSKeyID alibaba;
                "--alibaba-oss-endpoint"; AlibabaUnsealConfig.OSSEndpoint alibaba;
                "--alibaba-oss-bucket"; AlibabaUnsealConfig.OSSBucket alibaba;
                "--alibaba-oss-prefix"; AlibabaUnsealConfig.OSSPrefix alibaba]
  | _ => True
  end.
Proof.
  rewrite (ToArgs_options tick usc vault).
  destruct usc as [opts k8s [g|] [al|] [az|] [aws|] [oci|] [v|] [hsm|]];
    unfold selected; simpl; try exact I;
    eexists; (split; [reflexivity|]); reflexivity.
Qed.
